(** * terraform-http-backend: storage and locking core

    A shallow embedding of [terraform-http-backend.go]: the [State]/[States]
    roster, [processEntries], the [Storage] predicates [isLocked] and
    [exists], and the HTTP handlers [allStates], [handleState], [handleGet],
    [handlePost], [handleDelete], [handleLock] and [handleUnlock].

    The handlers talk to two collaborators that live outside the program:
    the operating system's file calls ([os.Stat], [os.ReadFile],
    [os.WriteFile], [os.Remove], [os.Create], [os.Open], [ReadDir]) and
    net/http's [ResponseWriter].  Both are modelled explicitly below: the
    file system is a finite map from paths to nodes together with a fault
    oracle (so that a call may fail for a reason other than the shape of the
    tree), and the response writer is a recorder that keeps the first status
    code written, as net/http and httptest do. *)

From Stdlib Require Import ZArith.
From Stdlib Require Import Strings.Ascii.
From Stdlib Require Strings.String Strings.Byte.
From stdpp Require Import base option list gmap fin_maps strings.

Local Open Scope Z_scope.

(** ** Constants *)

Definition stateFileExt : string := ".tfstate".
Definition lockFileExt : string := ".lock".
Definition defaultFileMode : Z := 420. (* 0o644 *)

Definition StatusOK : Z := 200.
Definition StatusCreated : Z := 201.
Definition StatusBadRequest : Z := 400.
Definition StatusNotFound : Z := 404.
Definition StatusMethodNotAllowed : Z := 405.
Definition StatusConflict : Z := 409.
Definition StatusLocked : Z := 423.
Definition StatusInternalServerError : Z := 500.

(** ** Errors *)

(** Error numbers of the file calls.  [ENOENT] is the one [os.ErrNotExist]
    matches; the others stand for every other way a call can fail. *)
Inductive errno : Set :=
  | ENOENT | EISDIR | ENOTEMPTY | EACCES | EIO | ENOSPC | EROFS.

Global Instance errno_eq_dec : EqDecision errno.
Proof. solve_decision. Defined.

(** Go [error] values the program creates or receives. *)
Inductive error : Set :=
  | ErrNotDirectory
  | ErrAlreadyLocked
  | ErrAlreadyUnlocked
  | ErrAlreadyExists
  | ErrNotExists
  | PathError (e : errno)
  | Wrapped (msg : string) (inner : error).

(** [errors.Is(err, os.ErrNotExist)] *)
Fixpoint is_ErrNotExist (err : error) : bool :=
  match err with
  | PathError ENOENT => true
  | Wrapped _ inner => is_ErrNotExist inner
  | _ => false
  end.

Inductive result (A : Type) : Type :=
  | Ok (a : A)
  | Err (e : error).
Arguments Ok {A} a.
Arguments Err {A} e.

(** ** Strings and paths *)

Definition os_IsPathSeparator (c : ascii) : bool := Ascii.eqb c "/".

(** The loop of [filepath.Ext]: it walks the path from its last byte to its
    first; [acc] is [path[i+1:]]. *)
Fixpoint Ext_loop (rpath acc : list ascii) : list ascii :=
  match rpath with
  | [] => []
  | c :: rest =>
      if os_IsPathSeparator c then []
      else if Ascii.eqb c "." then c :: acc
      else Ext_loop rest (c :: acc)
  end.

Definition filepath_Ext (path : string) : string :=
  String.string_of_list_ascii
    (Ext_loop (rev (String.list_ascii_of_string path)) []).

Definition strings_HasSuffix (s suffix : string) : bool :=
  (String.length suffix <=? String.length s)%nat
  && String.eqb
       (String.substring (String.length s - String.length suffix)
          (String.length suffix) s)
       suffix.

Definition strings_TrimSuffix (s suffix : string) : string :=
  if strings_HasSuffix s suffix
  then String.substring 0 (String.length s - String.length suffix) s
  else s.

(** [filepath.Join] of a directory and one file name.  The storage path and
    the names are taken as clean, so joining is concatenation with one
    separator. *)
Definition filepath_Join (dir file : string) : string :=
  dir +:+ "/" +:+ file.

(** ** The file system *)

Inductive node : Type :=
  | File (data : list Byte.byte)
  | Dir (empty : bool).

Inductive syscall : Set :=
  | SysStat | SysRead | SysWrite | SysCreate | SysRemove | SysOpen | SysReadDir.

(** [nodes] is the tree, flattened to full paths.  [fault c p] is [Some e]
    when call [c] on path [p] fails with [e] whatever the tree holds
    (permissions, a failing device, a full disk). *)
Record FS : Type := {
  nodes : gmap string node;
  fault : syscall -> string -> option errno;
}.

Definition with_nodes (fs : FS) (m : gmap string node) : FS :=
  {| nodes := m; fault := fault fs |}.

Record FileInfo : Set := { IsDir : bool }.

Definition node_info (n : node) : FileInfo :=
  match n with
  | File _ => {| IsDir := false |}
  | Dir _ => {| IsDir := true |}
  end.

Definition os_Stat (fs : FS) (p : string) : result FileInfo :=
  match fault fs SysStat p with
  | Some e => Err (PathError e)
  | None =>
      match nodes fs !! p with
      | None => Err (PathError ENOENT)
      | Some n => Ok (node_info n)
      end
  end.

Definition os_ReadFile (fs : FS) (p : string) : result (list Byte.byte) :=
  match fault fs SysRead p with
  | Some e => Err (PathError e)
  | None =>
      match nodes fs !! p with
      | None => Err (PathError ENOENT)
      | Some (Dir _) => Err (PathError EISDIR)
      | Some (File data) => Ok data
      end
  end.

(** [os.WriteFile]: create or truncate, then write all of [data].  A failing
    call is taken to fail when the file is opened, before the tree changes. *)
Definition os_WriteFile (fs : FS) (p : string) (data : list Byte.byte) (perm : Z)
  : FS * option error :=
  match fault fs SysWrite p with
  | Some e => (fs, Some (PathError e))
  | None =>
      match nodes fs !! p with
      | Some (Dir _) => (fs, Some (PathError EISDIR))
      | _ => (with_nodes fs (<[p := File data]> (nodes fs)), None)
      end
  end.

(** [os.Create]: create or truncate; the file is left empty. *)
Definition os_Create (fs : FS) (p : string) : FS * option error :=
  match fault fs SysCreate p with
  | Some e => (fs, Some (PathError e))
  | None =>
      match nodes fs !! p with
      | Some (Dir _) => (fs, Some (PathError EISDIR))
      | _ => (with_nodes fs (<[p := File []]> (nodes fs)), None)
      end
  end.

(** [os.Remove]: removes a file or an empty directory. *)
Definition os_Remove (fs : FS) (p : string) : FS * option error :=
  match fault fs SysRemove p with
  | Some e => (fs, Some (PathError e))
  | None =>
      match nodes fs !! p with
      | None => (fs, Some (PathError ENOENT))
      | Some (Dir false) => (fs, Some (PathError ENOTEMPTY))
      | Some _ => (with_nodes fs (delete p (nodes fs)), None)
      end
  end.

(** The name of [p] inside directory [dir], when [p] is a direct child. *)
Fixpoint strip_prefix (pre s : string) : option string :=
  match pre with
  | EmptyString => Some s
  | String a pre' =>
      match s with
      | String b s' => if Ascii.eqb a b then strip_prefix pre' s' else None
      | EmptyString => None
      end
  end.

Fixpoint has_separator (s : string) : bool :=
  match s with
  | EmptyString => false
  | String c s' => os_IsPathSeparator c || has_separator s'
  end.

Definition child_name (dir p : string) : option string :=
  match strip_prefix (dir +:+ "/") p with
  | Some base =>
      if has_separator base || String.eqb base "" then None else Some base
  | None => None
  end.

(** [os.Open] of a directory: the handle is the path.  The storage directory
    itself is not a node of [nodes]; [NewStorage] has checked that it exists,
    and losing it later is a fault of the call. *)
Definition os_Open (fs : FS) (p : string) : result string :=
  match fault fs SysOpen p with
  | Some e => Err (PathError e)
  | None => Ok p
  end.

(** [dir.ReadDir(0)]: the names of all entries of the directory, in the order
    the map enumerates them (the directory order is unspecified). *)
Definition File_ReadDir (fs : FS) (dir : string) : result (list string) :=
  match fault fs SysReadDir dir with
  | Some e => Err (PathError e)
  | None => Ok (omap (child_name dir) (map_to_list (nodes fs)).*1)
  end.

(** ** States *)

Record State : Set := { Name : string; Locked : bool }.

Global Instance State_eq_dec : EqDecision State.
Proof. solve_decision. Defined.

Definition State_IsLocked (s : State) : bool := Locked s.

(** [State.Lock] (pointer receiver): the state after the call and the error returned. *)
Definition State_Lock (s : State) : State * option error :=
  if Locked s then (s, Some ErrAlreadyLocked)
  else ({| Name := Name s; Locked := true |}, None).

Definition State_Unlock (s : State) : State * option error :=
  if negb (Locked s) then (s, Some ErrAlreadyUnlocked)
  else ({| Name := Name s; Locked := false |}, None).

(** [States] is a slice of pointers, each pointing to a [State] no other
    slot points to; it is kept as the list of the states pointed to, and a
    call through one of the pointers updates the list at that index. *)
Definition States : Set := list State.

(** [States.State]: the first state with the given name, with its index. *)
Fixpoint States_State_from (i : nat) (s : list State) (name : string)
  : option (nat * State) :=
  match s with
  | [] => None
  | state :: rest =>
      if String.eqb (Name state) name then Some (i, state)
      else States_State_from (S i) rest name
  end.

Definition States_State (s : States) (name : string) : option (nat * State) :=
  States_State_from 0 s name.

Definition States_Add (name : string) (s : States) : States * option error :=
  match States_State s name with
  | Some _ => (s, Some ErrAlreadyExists)
  | None => (s ++ [{| Name := name; Locked := false |}], None)
  end.

Definition States_Lock (name : string) (s : States) : States * option error :=
  match States_State s name with
  | None => (s, Some ErrNotExists)
  | Some (i, state) =>
      let '(state', err) := State_Lock state in
      (<[i := state']> s, err)
  end.

(** [processEntries]: [action] is a method value bound to the roster, so it
    is given the roster it acts on and returns the roster it leaves. *)
Fixpoint processEntries (entries : list string) (ext : string)
    (action : string -> States -> States * option error) (states : States)
  : States * option error :=
  match entries with
  | [] => (states, None)
  | e :: rest =>
      if String.eqb (filepath_Ext e) ext then
        let name := strings_TrimSuffix e (filepath_Ext e) in
        match action name states with
        | (states', Some err) =>
            (states', Some (Wrapped ("failed to process entry " +:+ name) err))
        | (states', None) => processEntries rest ext action states'
        end
      else processEntries rest ext action states
  end.

(** ** The response writer *)

Record Result : Set := { Status : string; ResultStates : States }.

(** What one call wrote to the body: raw bytes, or the JSON document of a
    value handed to [json.Encoder] (kept as the value). *)
Inductive payload : Set :=
  | Bytes (data : list Byte.byte)
  | Json (v : Result).

Record ResponseWriter : Type := {
  Header : gmap string string;
  wroteHeader : bool;
  Code : Z;
  Body : list payload;
}.

(** [httptest.NewRecorder] *)
Definition NewRecorder : ResponseWriter :=
  {| Header := ∅; wroteHeader := false; Code := 200; Body := [] |}.

(** Only the first call's code is used. *)
Definition WriteHeader (w : ResponseWriter) (code : Z) : ResponseWriter :=
  if wroteHeader w then w
  else {| Header := Header w; wroteHeader := true; Code := code;
          Body := Body w |}.

Definition write_payload (w : ResponseWriter) (x : payload) : ResponseWriter :=
  let w := if wroteHeader w then w else WriteHeader w StatusOK in
  {| Header := Header w; wroteHeader := wroteHeader w; Code := Code w;
     Body := Body w ++ [x] |}.

(** [Write] sends the header with 200 when none was sent, then appends to
    the body.  The recorder's write never fails. *)
Definition Write (w : ResponseWriter) (data : list Byte.byte)
  : ResponseWriter * option error :=
  (write_payload w (Bytes data), None).

Definition Header_Set (w : ResponseWriter) (key value : string)
  : ResponseWriter :=
  {| Header := <[key := value]> (Header w); wroteHeader := wroteHeader w;
     Code := Code w; Body := Body w |}.

Definition Header_Del (w : ResponseWriter) (key : string) : ResponseWriter :=
  {| Header := delete key (Header w); wroteHeader := wroteHeader w;
     Code := Code w; Body := Body w |}.

(** [http.Error] *)
Definition http_Error (w : ResponseWriter) (msg : string) (code : Z)
  : ResponseWriter :=
  let w := Header_Del w "Content-Length" in
  let w := Header_Set w "Content-Type" "text/plain; charset=utf-8" in
  let w := Header_Set w "X-Content-Type-Options" "nosniff" in
  let w := WriteHeader w code in
  fst (Write w (String.list_byte_of_string (msg +:+ String "010" ""))).

(** [json.NewEncoder(w).Encode(v)] *)
Definition json_Encode (w : ResponseWriter) (v : Result)
  : ResponseWriter * option error :=
  (write_payload w (Json v), None).

(** The status code the client receives. *)
Definition StatusCode (w : ResponseWriter) : Z := Code w.

(** ** Requests *)

Record Request : Type := {
  Method : string;
  PathValues : gmap string string;
  RequestBody : result (list Byte.byte);
}.

Definition PathValue (r : Request) (key : string) : string :=
  default "" (PathValues r !! key).

Definition io_ReadAll (body : result (list Byte.byte))
  : result (list Byte.byte) := body.

(** ** Storage *)

Record Storage : Set := { path : string }.

Definition isLocked (s : Storage) (fs : FS) (name : string) : bool :=
  match os_Stat fs (filepath_Join (path s) (name +:+ lockFileExt)) with
  | Err _ => false
  | Ok info => if IsDir info then false else true
  end.

Definition exists_ (s : Storage) (fs : FS) (name : string) : bool :=
  match os_Stat fs (filepath_Join (path s) (name +:+ stateFileExt)) with
  | Err _ => false
  | Ok info => if IsDir info then false else true
  end.

Definition allStates (s : Storage) (fs : FS) (w : ResponseWriter)
  : ResponseWriter :=
  match os_Open fs (path s) with
  | Err _ => http_Error w "Internal Server Error" StatusInternalServerError
  | Ok dir =>
      match File_ReadDir fs dir with
      | Err _ => http_Error w "Internal Server Error" StatusInternalServerError
      | Ok entries =>
          let states : States := [] in
          match processEntries entries stateFileExt States_Add states with
          | (_, Some _) =>
              http_Error w "Internal Server Error" StatusInternalServerError
          | (states, None) =>
              match processEntries entries lockFileExt States_Lock states with
              | (_, Some _) =>
                  http_Error w "Internal Server Error"
                    StatusInternalServerError
              | (states, None) =>
                  let w := Header_Set w "Content-Type" "application/json" in
                  match json_Encode w
                          {| Status := "ok"; ResultStates := states |} with
                  | (w, Some _) =>
                      http_Error w "Internal Server Error"
                        StatusInternalServerError
                  | (w, None) => w
                  end
              end
          end
      end
  end.

Definition handleGet (s : Storage) (fs : FS) (w : ResponseWriter)
    (r : Request) (name : string) : ResponseWriter * FS :=
  let filePath := filepath_Join (path s) (name +:+ stateFileExt) in
  match os_ReadFile fs filePath with
  | Err err =>
      if is_ErrNotExist err
      then (http_Error w "Not Found" StatusNotFound, fs)
      else (http_Error w "Internal Server Error" StatusInternalServerError, fs)
  | Ok data =>
      let w := Header_Set w "Content-Type" "application/json" in
      match Write w data with
      | (w, Some _) =>
          (http_Error w "Internal Server Error" StatusInternalServerError, fs)
      | (w, None) => (w, fs)
      end
  end.

Definition handlePost (s : Storage) (fs : FS) (w : ResponseWriter)
    (r : Request) (name : string) : ResponseWriter * FS :=
  if isLocked s fs name then (http_Error w "Locked" StatusLocked, fs)
  else
    match io_ReadAll (RequestBody r) with
    | Err _ => (http_Error w "Bad Request" StatusBadRequest, fs)
    | Ok data =>
        let filePath := filepath_Join (path s) (name +:+ stateFileExt) in
        let w :=
          if negb (exists_ s fs name) then WriteHeader w StatusCreated
          else w in
        match os_WriteFile fs filePath data defaultFileMode with
        | (fs, Some _) =>
            (http_Error w "Internal Server Error" StatusInternalServerError,
             fs)
        | (fs, None) => (w, fs)
        end
    end.

Definition handleDelete (s : Storage) (fs : FS) (w : ResponseWriter)
    (r : Request) (name : string) : ResponseWriter * FS :=
  if isLocked s fs name then (http_Error w "Locked" StatusLocked, fs)
  else
    let filePath := filepath_Join (path s) (name +:+ stateFileExt) in
    match os_Remove fs filePath with
    | (fs, Some _) =>
        (http_Error w "Internal Server Error" StatusInternalServerError, fs)
    | (fs, None) => (w, fs)
    end.

Definition handleLock (s : Storage) (fs : FS) (w : ResponseWriter)
    (r : Request) (name : string) : ResponseWriter * FS :=
  if isLocked s fs name then (http_Error w "Locked" StatusLocked, fs)
  else
    let lockFile := filepath_Join (path s) (name +:+ lockFileExt) in
    match os_Create fs lockFile with
    | (fs, Some _) =>
        (http_Error w "Internal Server Error" StatusInternalServerError, fs)
    | (fs, None) => (w, fs)
    end.

Definition handleUnlock (s : Storage) (fs : FS) (w : ResponseWriter)
    (r : Request) (name : string) : ResponseWriter * FS :=
  if negb (isLocked s fs name) then (http_Error w "Conflict" StatusConflict, fs)
  else
    let lockFile := filepath_Join (path s) (name +:+ lockFileExt) in
    match os_Remove fs lockFile with
    | (fs, Some _) =>
        (http_Error w "Internal Server Error" StatusInternalServerError, fs)
    | (fs, None) => (w, fs)
    end.

Definition handler : Type :=
  Storage -> FS -> ResponseWriter -> Request -> string -> ResponseWriter * FS.

(** The method table of [handleState]. *)
Definition handlers (method : string) : option handler :=
  if String.eqb method "GET" then Some handleGet
  else if String.eqb method "POST" then Some handlePost
  else if String.eqb method "DELETE" then Some handleDelete
  else if String.eqb method "LOCK" then Some handleLock
  else if String.eqb method "UNLOCK" then Some handleUnlock
  else None.

Definition handleState (s : Storage) (fs : FS) (w : ResponseWriter)
    (r : Request) : ResponseWriter * FS :=
  let name := PathValue r "name" in
  if String.eqb name "" then
    (http_Error w "Bad Request: missing name" StatusBadRequest, fs)
  else
    match handlers (Method r) with
    | None => (http_Error w "Method Not Allowed" StatusMethodNotAllowed, fs)
    | Some h => h s fs w r name
    end.

(** * Definitions used to state the properties *)

(** The two artifacts of a name. *)
Definition statePath (s : Storage) (name : string) : string :=
  filepath_Join (path s) (name +:+ stateFileExt).
Definition lockPath (s : Storage) (name : string) : string :=
  filepath_Join (path s) (name +:+ lockFileExt).

(** The body [http.Error] leaves on a fresh writer. *)
Definition error_body (msg : string) : list payload :=
  [Bytes (String.list_byte_of_string (msg +:+ String "010" ""))].

(** ** The roster *)

(** The name an entry stands for under extension [ext], as [processEntries]
    computes it. *)
Definition artifact_name (ext e : string) : option string :=
  if String.eqb (filepath_Ext e) ext
  then Some (strings_TrimSuffix e (filepath_Ext e))
  else None.

Definition artifacts (ext : string) (entries : list string) : list string :=
  omap (artifact_name ext) entries.

(** [processEntries] over the names already extracted. *)
Fixpoint run_action (action : string -> States -> States * option error)
    (names : list string) (states : States) : States * option error :=
  match names with
  | [] => (states, None)
  | name :: rest =>
      match action name states with
      | (states', Some err) =>
          (states', Some (Wrapped ("failed to process entry " +:+ name) err))
      | (states', None) => run_action action rest states'
      end
  end.

(** [States.Lock] by recursion on the roster. *)
Fixpoint lock_first (name : string) (s : list State)
  : list State * option error :=
  match s with
  | [] => ([], Some ErrNotExists)
  | state :: rest =>
      if String.eqb (Name state) name then
        let '(state', err) := State_Lock state in (state' :: rest, err)
      else
        let '(rest', err) := lock_first name rest in (state :: rest', err)
  end.

Definition unlocked (name : string) : State :=
  {| Name := name; Locked := false |}.

Definition mark (locks : list string) (st : State) : State :=
  {| Name := Name st;
     Locked := Locked st || bool_decide (Name st ∈ locks) |}.

(** ** Concrete stores used to exercise the theorems *)

Definition no_fault : syscall -> string -> option errno := fun _ _ => None.

Definition store : Storage := {| path := "/var/lib/terraform" |}.

Definition sample : list Byte.byte := [Byte.x7b; Byte.x00; Byte.xff; Byte.x7d].

Definition post_req (data : list Byte.byte) : Request :=
  {| Method := "POST"; PathValues := {[ "name" := "prod" ]};
     RequestBody := Ok data |}.

Definition bare_req (method : string) : Request :=
  {| Method := method; PathValues := {[ "name" := "prod" ]};
     RequestBody := Ok [] |}.

(** An empty storage directory. *)
Definition fs_empty : FS := {| nodes := ∅; fault := no_fault |}.

(** [prod] has content and is locked. *)
Definition fs_locked : FS :=
  {| nodes := {[ statePath store "prod" := File [Byte.x31];
                 lockPath store "prod" := File [] ]};
     fault := no_fault |}.

(** [prod] has content and is not locked. *)
Definition fs_present : FS :=
  {| nodes := {[ statePath store "prod" := File [Byte.x31] ]};
     fault := no_fault |}.

(** An empty storage directory on a full disk: every write fails. *)
Definition fs_full : FS :=
  {| nodes := ∅;
     fault := fun c _ => match c with SysWrite => Some ENOSPC | _ => None end |}.

(** [prod] has content, but reading it is denied. *)
Definition fs_unreadable : FS :=
  {| nodes := {[ statePath store "prod" := File [Byte.x31] ]};
     fault := fun c _ => match c with SysRead => Some EACCES | _ => None end |}.

(** [prod] has content and a lock marker, but the marker cannot be
    inspected. *)
Definition fs_stat_denied : FS :=
  {| nodes := {[ statePath store "prod" := File [Byte.x31];
                 lockPath store "prod" := File [] ]};
     fault := fun c p =>
       match c with
       | SysStat => if String.eqb p (lockPath store "prod")
                    then Some EACCES else None
       | _ => None
       end |}.

(** [prod] has content and is locked, [dev] has content only. *)
Definition fs_listing : FS :=
  {| nodes := {[ statePath store "prod" := File [Byte.x31];
                 lockPath store "prod" := File [];
                 statePath store "dev" := File [] ]};
     fault := no_fault |}.

(** A lock marker whose content artifact is missing. *)
Definition fs_orphan : FS :=
  {| nodes := {[ statePath store "dev" := File [];
                 lockPath store "prod" := File [] ]};
     fault := no_fault |}.

(** * Definitions used by the further properties *)

(** The methods of the table of [handleState]. *)
Definition methods : list string := ["GET"; "POST"; "DELETE"; "LOCK"; "UNLOCK"].

(** The status codes the handlers write. *)
Definition statuses : list Z := [200; 201; 400; 404; 405; 409; 423; 500].

(** [prod.lock] is a directory. *)
Definition fs_lock_dir : FS :=
  {| nodes := {[ statePath store "prod" := File [Byte.x31];
                 lockPath store "prod" := Dir true ]};
     fault := no_fault |}.

(** The storage directory cannot be written to: create and remove fail. *)
Definition fs_readonly : FS :=
  {| nodes := {[ statePath store "prod" := File [Byte.x31];
                 lockPath store "prod" := File [] ]};
     fault := fun c _ =>
       match c with
       | SysCreate | SysRemove | SysWrite => Some EROFS
       | _ => None
       end |}.

(** As [fs_readonly], with [prod] not locked. *)
Definition fs_readonly_unlocked : FS :=
  {| nodes := {[ statePath store "prod" := File [Byte.x31] ]};
     fault := fault fs_readonly |}.

Definition broken_req : Request :=
  {| Method := "POST"; PathValues := {[ "name" := "prod" ]};
     RequestBody := Err (PathError EIO) |}.

Definition nameless_req (method : string) : Request :=
  {| Method := method; PathValues := ∅; RequestBody := Ok [] |}.

(** The roster [allStates] builds from a listing without failure. *)
Definition roster_of (entries : list string) : States :=
  mark (artifacts lockFileExt entries)
    <$> (unlocked <$> artifacts stateFileExt entries).

(** The response of [allStates] that carries a roster. *)
Definition roster_response (roster : States) : ResponseWriter :=
  (json_Encode (Header_Set NewRecorder "Content-Type" "application/json")
     {| Status := "ok"; ResultStates := roster |}).1.

(** ** The environment *)

(** [os.Getenv] over the process environment: an unset variable reads as
    the empty string. *)
Definition os_Getenv (env : gmap string string) (key : string) : string :=
  default "" (env !! key).

(** The table [asciiSpace] of package strings: tab, line feed, vertical tab,
    form feed, carriage return and space. *)
Definition asciiSpace (c : ascii) : bool :=
  Ascii.eqb c "009" || Ascii.eqb c "010" || Ascii.eqb c "011"
  || Ascii.eqb c "012" || Ascii.eqb c "013" || Ascii.eqb c " ".

(** [c >= utf8.RuneSelf] *)
Definition is_RuneSelf (c : ascii) : bool := (128 <=? N_of_ascii c)%N.

Section TrimSpace.
(** The two Unicode-aware fallbacks of [strings.TrimSpace], taken on the
    first byte outside ASCII: [TrimFunc(s, unicode.IsSpace)] and
    [TrimRightFunc(s, unicode.IsSpace)]. *)
Variables (TrimFunc_IsSpace TrimRightFunc_IsSpace : string -> string).

(** The first loop of [strings.TrimSpace]: [inr] is [s[start:]], [inl] the
    result of the fallback. *)
Fixpoint TrimSpace_start (s : string) : string + string :=
  match s with
  | EmptyString => inr EmptyString
  | String c rest =>
      if is_RuneSelf c then inl (TrimFunc_IsSpace s)
      else if asciiSpace c then TrimSpace_start rest
      else inr s
  end.

(** The second loop, over the bytes of [s[start:]] from the last to the
    first. *)
Fixpoint TrimSpace_stop (rev_s : list ascii) : string :=
  match rev_s with
  | [] => EmptyString
  | c :: rest =>
      if is_RuneSelf c
      then TrimRightFunc_IsSpace (String.string_of_list_ascii (rev rev_s))
      else if asciiSpace c then TrimSpace_stop rest
      else String.string_of_list_ascii (rev rev_s)
  end.

Definition strings_TrimSpace (s : string) : string :=
  match TrimSpace_start s with
  | inl trimmed => trimmed
  | inr rest => TrimSpace_stop (rev (String.list_ascii_of_string rest))
  end.

(** [strconv.ParseBool]; [None] is the syntax error. *)
Definition strconv_ParseBool (str : string) : option bool :=
  if bool_decide (str ∈ ["1"; "t"; "T"; "TRUE"; "true"; "True"])
  then Some true
  else if bool_decide (str ∈ ["0"; "f"; "F"; "FALSE"; "false"; "False"])
  then Some false
  else None.

Definition stringFromEnv (env : gmap string string) (key def : string)
  : string :=
  let v := os_Getenv env key in
  if negb (String.eqb v "") then strings_TrimSpace v else def.

Definition boolFromEnv (env : gmap string string) (key : string) (def : bool)
  : bool :=
  let v := os_Getenv env key in
  if negb (String.eqb v "") then
    match strconv_ParseBool (strings_TrimSpace v) with
    | Some parsed => parsed
    | None => def
    end
  else def.

End TrimSpace.

(** Only ASCII white space. *)
Definition blank (s : string) : Prop :=
  Forall (λ c, asciiSpace c = true) (String.list_ascii_of_string s).

(** Fallbacks for inputs that stay within ASCII, where they are not
    called. *)
Definition no_fallback : string -> string := fun s => s.

(** A byte of ASCII that is not white space. *)
Definition solid (c : ascii) : bool := negb (is_RuneSelf c) && negb (asciiSpace c).

Definition sample_env : gmap string string :=
  {[ "TF_HTTP_PATH" := "   ";
     "TF_HTTP_ADDR" := "";
     "TF_HTTP_DIR" := String "009" " /srv/tf state " ]}.

(** ** Start-up *)

Definition testFileName : string := "test_rw".
Definition defaultDirMode : Z := 493. (* 0o755 *)

(** [os.IsNotExist]: it looks at the error of the call itself. *)
Definition os_IsNotExist (err : error) : bool :=
  match err with
  | PathError ENOENT => true
  | _ => false
  end.

(** The error at the end of a chain of wrapping; [errors.Is(err, target)]
    for one of the program's own errors is [root_cause err = target]. *)
Fixpoint root_cause (err : error) : error :=
  match err with
  | Wrapped _ inner => root_cause inner
  | _ => err
  end.

Section Bootstrap.
(** [os.Mkdir] and the [Close] of the file [os.Create] returned: the two
    calls of start-up that the handlers never make. *)
Variable os_Mkdir : FS -> string -> Z -> FS * option error.
Variable File_Close : FS -> string -> FS * option error.

Definition ensureDirectoryExists (fs : FS) (path : string)
  : FS * result FileInfo :=
  match os_Stat fs path with
  | Ok info => (fs, Ok info)
  | Err err =>
      if os_IsNotExist err then
        match os_Mkdir fs path defaultDirMode with
        | (fs, Some err) =>
            (fs, Err (Wrapped ("failed to create " +:+ path) err))
        | (fs, None) =>
            match os_Stat fs path with
            | Ok info => (fs, Ok info)
            | Err err =>
                (fs, Err (Wrapped
                            ("failed to retrieve information for " +:+ path)
                            err))
            end
        end
      else
        (fs, Err (Wrapped ("failed to retrieve information for " +:+ path)
                    err))
  end.

Definition NewStorage (fs : FS) (path : string) : FS * result Storage :=
  match ensureDirectoryExists fs path with
  | (fs, Err err) =>
      (fs, Err (Wrapped ("failed to initialize storage " +:+ path) err))
  | (fs, Ok info) =>
      if negb (IsDir info) then (fs, Err (Wrapped path ErrNotDirectory))
      else
        let file := filepath_Join path testFileName in
        match os_Create fs file with
        | (fs, Some err) =>
            (fs, Err (Wrapped
                        ("insufficient permissions for reading and writing in "
                         +:+ path) err))
        | (fs, None) =>
            match File_Close fs file with
            | (fs, Some err) =>
                (fs, Err (Wrapped ("failed close testfile " +:+ file) err))
            | (fs, None) =>
                match os_Remove fs file with
                | (fs, Some err) =>
                    (fs, Err (Wrapped ("failed remove testfile " +:+ file)
                                err))
                | (fs, None) => (fs, Ok {| path := path |})
                end
            end
        end
  end.

End Bootstrap.

(** A [Mkdir] and a [Close] that do not fail. *)
Definition mkdir_ok (fs : FS) (p : string) (perm : Z) : FS * option error :=
  (with_nodes fs (<[p := Dir true]> (nodes fs)), None).
Definition close_ok (fs : FS) (p : string) : FS * option error := (fs, None).

(** The storage directory exists and holds a state and a stray [test_rw]. *)
Definition fs_rooted : FS :=
  {| nodes := {[ path store := Dir false;
                 statePath store "prod" := File [Byte.x31];
                 filepath_Join (path store) testFileName := File [Byte.x32] ]};
     fault := no_fault |}.

(** The storage path names a regular file. *)
Definition fs_file_root : FS :=
  {| nodes := {[ path store := File [] ]}; fault := no_fault |}.

(** The storage path cannot be inspected. *)
Definition fs_root_denied : FS :=
  {| nodes := {[ path store := Dir false ]};
     fault := fun c _ => match c with SysStat => Some EACCES | _ => None end |}.

(** * Lemmas *)

Section Paths.

Lemma statePath_ne_lockPath s name : statePath s name ≠ lockPath s name.
Proof.
  unfold statePath, lockPath, filepath_Join. intros H.
  apply (inj (String.app (path s))) in H.
  apply (inj (String.app "/")) in H.
  apply (inj (String.app name)) in H.
  discriminate H.
Qed.

Lemma lockPath_ne_statePath s name : lockPath s name ≠ statePath s name.
Proof. intros H. symmetry in H. by apply statePath_ne_lockPath in H. Qed.

End Paths.

Section Writer.

Lemma StatusCode_http_Error msg code :
  StatusCode (http_Error NewRecorder msg code) = code.
Proof. reflexivity. Qed.

Lemma Body_http_Error msg code :
  Body (http_Error NewRecorder msg code) = error_body msg.
Proof. reflexivity. Qed.

(** A status written first wins over the one [http.Error] writes later. *)
Lemma StatusCode_WriteHeader_http_Error first msg code :
  StatusCode (http_Error (WriteHeader NewRecorder first) msg code) = first.
Proof. reflexivity. Qed.

End Writer.

Section Predicates.
Variables (s : Storage) (fs : FS) (name : string).

Lemma isLocked_true_iff :
  isLocked s fs name = true ↔
  fault fs SysStat (lockPath s name) = None
  ∧ ∃ d, nodes fs !! lockPath s name = Some (File d).
Proof.
  unfold isLocked, os_Stat. fold (lockPath s name).
  destruct (fault fs SysStat (lockPath s name)) as [e|].
  { split; [done | by intros [? _]]. }
  destruct (nodes fs !! lockPath s name) as [[d|b]|]; simpl;
    (split; [intros ? | intros [_ [? ?]]]); try done; eauto.
Qed.

Lemma exists_true_iff :
  exists_ s fs name = true ↔
  fault fs SysStat (statePath s name) = None
  ∧ ∃ d, nodes fs !! statePath s name = Some (File d).
Proof.
  unfold exists_, os_Stat. fold (statePath s name).
  destruct (fault fs SysStat (statePath s name)) as [e|].
  { split; [done | by intros [? _]]. }
  destruct (nodes fs !! statePath s name) as [[d|b]|]; simpl;
    (split; [intros ? | intros [_ [? ?]]]); try done; eauto.
Qed.

Lemma isLocked_absent :
  nodes fs !! lockPath s name = None → isLocked s fs name = false.
Proof.
  intros H. destruct (isLocked s fs name) eqn:E; [|done].
  apply isLocked_true_iff in E as [_ [d Hd]]. congruence.
Qed.

Lemma exists_absent :
  nodes fs !! statePath s name = None → exists_ s fs name = false.
Proof.
  intros H. destruct (exists_ s fs name) eqn:E; [|done].
  apply exists_true_iff in E as [_ [d Hd]]. congruence.
Qed.

Lemma isLocked_present d :
  nodes fs !! lockPath s name = Some (File d) →
  fault fs SysStat (lockPath s name) = None →
  isLocked s fs name = true.
Proof. intros. apply isLocked_true_iff; eauto. Qed.

Lemma exists_present d :
  nodes fs !! statePath s name = Some (File d) →
  fault fs SysStat (statePath s name) = None →
  exists_ s fs name = true.
Proof. intros. apply exists_true_iff; eauto. Qed.

End Predicates.

(** What the handlers do on each branch, in the code's own terms. *)
Section Handlers.
Variables (s : Storage) (fs : FS) (r : Request) (name : string).

Lemma handlePost_locked :
  isLocked s fs name = true →
  handlePost s fs NewRecorder r name
  = (http_Error NewRecorder "Locked" StatusLocked, fs).
Proof. unfold handlePost. by intros ->. Qed.

Lemma handleDelete_locked :
  isLocked s fs name = true →
  handleDelete s fs NewRecorder r name
  = (http_Error NewRecorder "Locked" StatusLocked, fs).
Proof. unfold handleDelete. by intros ->. Qed.

Lemma handleLock_locked :
  isLocked s fs name = true →
  handleLock s fs NewRecorder r name
  = (http_Error NewRecorder "Locked" StatusLocked, fs).
Proof. unfold handleLock. by intros ->. Qed.

Lemma handleUnlock_unlocked :
  isLocked s fs name = false →
  handleUnlock s fs NewRecorder r name
  = (http_Error NewRecorder "Conflict" StatusConflict, fs).
Proof. unfold handleUnlock. by intros ->. Qed.

Lemma handlePost_written data :
  isLocked s fs name = false →
  RequestBody r = Ok data →
  fault fs SysWrite (statePath s name) = None →
  (∀ b, nodes fs !! statePath s name ≠ Some (Dir b)) →
  handlePost s fs NewRecorder r name
  = (if exists_ s fs name then NewRecorder
     else WriteHeader NewRecorder StatusCreated,
     with_nodes fs (<[statePath s name := File data]> (nodes fs))).
Proof.
  intros Hl Hb Hf Hd. unfold handlePost, io_ReadAll, os_WriteFile.
  fold (statePath s name). rewrite Hl, Hb, Hf.
  destruct (nodes fs !! statePath s name) as [[d|b]|] eqn:E;
    [| by destruct (Hd b) |]; by destruct (exists_ s fs name).
Qed.

Lemma handlePost_write_error data e :
  isLocked s fs name = false →
  RequestBody r = Ok data →
  fault fs SysWrite (statePath s name) = Some e →
  StatusCode (handlePost s fs NewRecorder r name).1
  = (if exists_ s fs name then StatusInternalServerError
     else StatusCreated)
  ∧ (handlePost s fs NewRecorder r name).2 = fs.
Proof.
  intros Hl Hb Hf. unfold handlePost, io_ReadAll, os_WriteFile.
  fold (statePath s name). rewrite Hl, Hb, Hf.
  by destruct (exists_ s fs name).
Qed.

Lemma handleDelete_removed d :
  isLocked s fs name = false →
  nodes fs !! statePath s name = Some (File d) →
  fault fs SysRemove (statePath s name) = None →
  handleDelete s fs NewRecorder r name
  = (NewRecorder, with_nodes fs (delete (statePath s name) (nodes fs))).
Proof.
  intros Hl Hn Hf. unfold handleDelete, os_Remove.
  fold (statePath s name). by rewrite Hl, Hf, Hn.
Qed.

Lemma handleDelete_absent :
  isLocked s fs name = false →
  nodes fs !! statePath s name = None →
  handleDelete s fs NewRecorder r name
  = (http_Error NewRecorder "Internal Server Error"
       StatusInternalServerError, fs).
Proof.
  intros Hl Hn. unfold handleDelete, os_Remove.
  fold (statePath s name). rewrite Hl, Hn.
  by destruct (fault fs SysRemove (statePath s name)).
Qed.

Lemma handleLock_created :
  isLocked s fs name = false →
  fault fs SysCreate (lockPath s name) = None →
  (∀ b, nodes fs !! lockPath s name ≠ Some (Dir b)) →
  handleLock s fs NewRecorder r name
  = (NewRecorder,
     with_nodes fs (<[lockPath s name := File []]> (nodes fs))).
Proof.
  intros Hl Hf Hd. unfold handleLock, os_Create.
  fold (lockPath s name). rewrite Hl, Hf.
  destruct (nodes fs !! lockPath s name) as [[d|b]|] eqn:E;
    [done | by destruct (Hd b) | done].
Qed.

Lemma handleUnlock_removed :
  isLocked s fs name = true →
  fault fs SysRemove (lockPath s name) = None →
  handleUnlock s fs NewRecorder r name
  = (NewRecorder, with_nodes fs (delete (lockPath s name) (nodes fs))).
Proof.
  intros Hl Hf. unfold handleUnlock, os_Remove.
  fold (lockPath s name). rewrite Hl, Hf.
  apply isLocked_true_iff in Hl as [_ [d ->]]. done.
Qed.

(** [handleState] hands a request with a name and a known method to the
    handler of that method. *)
Lemma handleState_dispatch w h :
  PathValue r "name" = name →
  name ≠ "" →
  handlers (Method r) = Some h →
  handleState s fs w r = h s fs w r name.
Proof.
  intros Hn Hne Hh. unfold handleState. rewrite Hn, Hh.
  by destruct (String.eqb_spec name "").
Qed.

End Handlers.

Section Strings.

Lemma string_of_list_ascii_app (a b : list ascii) :
  String.string_of_list_ascii (a ++ b)
  = String.string_of_list_ascii a +:+ String.string_of_list_ascii b.
Proof. induction a as [|c a IH]; simpl; [done | by rewrite IH]. Qed.

Lemma list_ascii_of_string_app (a b : string) :
  String.list_ascii_of_string (a +:+ b)
  = String.list_ascii_of_string a ++ String.list_ascii_of_string b.
Proof. induction a as [|c a IH]; simpl; [done | by rewrite IH]. Qed.

Lemma Ext_loop_suffix rpath acc :
  ∃ pre, rev rpath ++ acc = pre ++ Ext_loop rpath acc.
Proof.
  revert acc. induction rpath as [|c rest IH]; intros acc; simpl.
  - exists acc. by rewrite app_nil_r.
  - destruct (os_IsPathSeparator c).
    { eexists. by rewrite app_nil_r. }
    destruct (Ascii.eqb c ".").
    { exists (rev rest). by rewrite <- app_assoc. }
    destruct (IH (c :: acc)) as [pre Hpre].
    exists pre. by rewrite <- app_assoc.
Qed.

Lemma filepath_Ext_suffix p : ∃ pre, p = pre +:+ filepath_Ext p.
Proof.
  unfold filepath_Ext.
  destruct (Ext_loop_suffix (rev (String.list_ascii_of_string p)) [])
    as [pre Hpre].
  rewrite rev_involutive, app_nil_r in Hpre.
  exists (String.string_of_list_ascii pre).
  rewrite <- string_of_list_ascii_app, <- Hpre.
  by rewrite String.string_of_list_ascii_of_string.
Qed.

Lemma filepath_Ext_state n : filepath_Ext (n +:+ stateFileExt) = stateFileExt.
Proof.
  unfold filepath_Ext.
  by rewrite list_ascii_of_string_app, rev_app_distr.
Qed.

Lemma filepath_Ext_lock n : filepath_Ext (n +:+ lockFileExt) = lockFileExt.
Proof.
  unfold filepath_Ext.
  by rewrite list_ascii_of_string_app, rev_app_distr.
Qed.

Lemma string_length_app (a b : string) :
  String.length (a +:+ b) = (String.length a + String.length b)%nat.
Proof. induction a as [|c a IH]; simpl; [done | by rewrite IH]. Qed.

Lemma substring_all (a : string) :
  String.substring 0 (String.length a) a = a.
Proof. induction a as [|c a IH]; simpl; [done | by rewrite IH]. Qed.

Lemma substring_prefix (a b : string) :
  String.substring 0 (String.length a) (a +:+ b) = a.
Proof.
  induction a as [|c a IH]; simpl; [by destruct b | by rewrite IH].
Qed.

Lemma substring_suffix (a b : string) :
  String.substring (String.length a) (String.length b) (a +:+ b) = b.
Proof. induction a as [|c a IH]; simpl; [apply substring_all | done]. Qed.

Lemma strings_TrimSuffix_app (a b : string) :
  strings_TrimSuffix (a +:+ b) b = a.
Proof.
  unfold strings_TrimSuffix, strings_HasSuffix. rewrite string_length_app.
  replace (String.length a + String.length b - String.length b)%nat
    with (String.length a) by lia.
  rewrite substring_suffix, String.eqb_refl, substring_prefix.
  by destruct (Nat.leb_spec (String.length b)
                 (String.length a + String.length b)); [|lia].
Qed.

Lemma string_app_assoc (a b c : string) :
  (a +:+ b) +:+ c = a +:+ b +:+ c.
Proof.
  induction a as [|x a IH]; [done|].
  change (String x ((a +:+ b) +:+ c) = String x (a +:+ b +:+ c)).
  by rewrite IH.
Qed.

Lemma strip_prefix_Some pre p base :
  strip_prefix pre p = Some base → p = pre +:+ base.
Proof.
  revert p. induction pre as [|a pre IH]; intros p; simpl.
  - by intros [= ->].
  - destruct p as [|b p]; [done|].
    destruct (Ascii.eqb_spec a b) as [->|]; [|done].
    intros H. by rewrite (IH _ H).
Qed.

Lemma child_name_Some dir p base :
  child_name dir p = Some base → p = filepath_Join dir base.
Proof.
  unfold child_name, filepath_Join.
  destruct (strip_prefix (dir +:+ "/") p) as [b|] eqn:E; [|done].
  destruct (has_separator b || String.eqb b ""); [done|].
  intros [= <-]. apply strip_prefix_Some in E as ->.
  apply string_app_assoc.
Qed.

End Strings.

Section Artifacts.

Lemma artifact_name_state e n :
  artifact_name stateFileExt e = Some n ↔ e = n +:+ stateFileExt.
Proof.
  unfold artifact_name. split.
  - destruct (String.eqb_spec (filepath_Ext e) stateFileExt) as [Hx|];
      [|done].
    destruct (filepath_Ext_suffix e) as [pre Hpre].
    rewrite Hx in *. intros [= <-].
    rewrite Hpre at 2. by rewrite strings_TrimSuffix_app.
  - intros ->.
    by rewrite filepath_Ext_state, String.eqb_refl, strings_TrimSuffix_app.
Qed.

Lemma artifact_name_lock e n :
  artifact_name lockFileExt e = Some n ↔ e = n +:+ lockFileExt.
Proof.
  unfold artifact_name. split.
  - destruct (String.eqb_spec (filepath_Ext e) lockFileExt) as [Hx|];
      [|done].
    destruct (filepath_Ext_suffix e) as [pre Hpre].
    rewrite Hx in *. intros [= <-].
    rewrite Hpre at 2. by rewrite strings_TrimSuffix_app.
  - intros ->.
    by rewrite filepath_Ext_lock, String.eqb_refl, strings_TrimSuffix_app.
Qed.

Lemma elem_of_artifacts_state entries n :
  n ∈ artifacts stateFileExt entries ↔ n +:+ stateFileExt ∈ entries.
Proof.
  unfold artifacts. rewrite list_elem_of_omap. split.
  - intros (e & He & Hn). by apply artifact_name_state in Hn as ->.
  - intros He. eexists. split; [done|]. by apply artifact_name_state.
Qed.

Lemma elem_of_artifacts_lock entries n :
  n ∈ artifacts lockFileExt entries ↔ n +:+ lockFileExt ∈ entries.
Proof.
  unfold artifacts. rewrite list_elem_of_omap. split.
  - intros (e & He & Hn). by apply artifact_name_lock in Hn as ->.
  - intros He. eexists. split; [done|]. by apply artifact_name_lock.
Qed.

Lemma NoDup_omap_inj {A B} (f : A → option B) (l : list A) :
  (∀ x y z, f x = Some z → f y = Some z → x = y) →
  NoDup l → NoDup (omap f l).
Proof.
  intros Hinj. induction 1 as [|x l Hx Hl IH]; simpl; [constructor|].
  destruct (f x) as [z|] eqn:E; [|done].
  constructor; [|done].
  intros (y & Hy & Hfy)%list_elem_of_omap.
  by rewrite (Hinj x y z E Hfy) in Hx.
Qed.

Lemma NoDup_artifacts_state entries :
  NoDup entries → NoDup (artifacts stateFileExt entries).
Proof.
  apply NoDup_omap_inj. intros x y z Hx%artifact_name_state
    Hy%artifact_name_state. congruence.
Qed.

Lemma NoDup_artifacts_lock entries :
  NoDup entries → NoDup (artifacts lockFileExt entries).
Proof.
  apply NoDup_omap_inj. intros x y z Hx%artifact_name_lock
    Hy%artifact_name_lock. congruence.
Qed.

Lemma processEntries_run_action entries ext action states :
  processEntries entries ext action states
  = run_action action (artifacts ext entries) states.
Proof.
  revert states. induction entries as [|e rest IH]; intros states;
    [done|].
  simpl. unfold artifact_name.
  destruct (String.eqb (filepath_Ext e) ext); [|apply IH].
  simpl. destruct (action _ states) as [states' [err|]]; [done | apply IH].
Qed.

Lemma File_ReadDir_NoDup fs dir entries :
  File_ReadDir fs dir = Ok entries → NoDup entries.
Proof.
  unfold File_ReadDir. destruct (fault fs SysReadDir dir); [done|].
  intros [= <-]. apply NoDup_omap_inj; [|apply NoDup_fst_map_to_list].
  intros x y z Hx%child_name_Some Hy%child_name_Some. congruence.
Qed.

End Artifacts.

Section Roster.

Lemma States_State_from_None i s name :
  name ∉ Name <$> s → States_State_from i s name = None.
Proof.
  revert i. induction s as [|x s IH]; intros i Hn; [done|].
  simpl. apply not_elem_of_cons in Hn as [Hx Hs].
  destruct (String.eqb_spec (Name x) name); [congruence | by apply IH].
Qed.

Lemma States_Add_fresh name s :
  name ∉ Name <$> s → States_Add name s = (s ++ [unlocked name], None).
Proof.
  intros Hn. unfold States_Add, States_State.
  by rewrite States_State_from_None.
Qed.

Lemma run_action_Add names s :
  NoDup ((Name <$> s) ++ names) →
  run_action States_Add names s = (s ++ (unlocked <$> names), None).
Proof.
  revert s. induction names as [|n rest IH]; intros s Hnd; simpl.
  - by rewrite app_nil_r.
  - rewrite States_Add_fresh.
    + rewrite IH; [by rewrite <- app_assoc|].
      rewrite fmap_app. simpl. by rewrite <- app_assoc.
    + apply NoDup_app in Hnd as (_ & Hd & _).
      intros Hin. apply (Hd n Hin). left.
Qed.

Lemma States_Lock_lock_first_from pre s name :
  match States_State_from (length pre) s name with
  | None => (pre ++ s, Some ErrNotExists)
  | Some (i, state) =>
      let '(state', err) := State_Lock state in
      (<[i := state']> (pre ++ s), err)
  end
  = (let '(s', err) := lock_first name s in (pre ++ s', err)).
Proof.
  revert pre. induction s as [|x s IH]; intros pre; [done|].
  simpl. destruct (String.eqb (Name x) name).
  - destruct (State_Lock x) as [x' err].
    rewrite insert_app_r_alt by lia. by rewrite Nat.sub_diag.
  - specialize (IH (pre ++ [x])).
    rewrite length_app, Nat.add_1_r, <- !app_assoc in IH. simpl in IH.
    rewrite IH. destruct (lock_first name s) as [s' err].
    by rewrite <- app_assoc.
Qed.

Lemma States_Lock_lock_first name s :
  States_Lock name s = lock_first name s.
Proof.
  pose proof (States_Lock_lock_first_from [] s name) as H. simpl in H.
  unfold States_Lock, States_State.
  transitivity (let '(s', err) := lock_first name s in (s', err));
    [exact H | by destruct (lock_first name s)].
Qed.

Lemma lock_first_names name s :
  Name <$> (lock_first name s).1 = Name <$> s.
Proof.
  induction s as [|x s IH]; [done|]. simpl.
  destruct (String.eqb (Name x) name).
  - unfold State_Lock. by destruct (Locked x).
  - destruct (lock_first name s) as [s' err]. csimpl in *. by rewrite IH.
Qed.

Lemma lock_first_missing name s :
  name ∉ Name <$> s → (lock_first name s).2 = Some ErrNotExists.
Proof.
  induction s as [|x s IH]; [done|]. simpl.
  intros [Hx Hs]%not_elem_of_cons.
  destruct (String.eqb_spec (Name x) name); [congruence|].
  specialize (IH Hs). by destruct (lock_first name s).
Qed.

Lemma mark_nil st : mark [] st = st.
Proof. destruct st as [n l]. unfold mark. simpl. by rewrite orb_false_r. Qed.

Lemma mark_other name locks st :
  Name st ≠ name → mark (name :: locks) st = mark locks st.
Proof.
  intros Hne. unfold mark. f_equal. f_equal.
  apply bool_decide_ext. rewrite elem_of_cons. tauto.
Qed.

Lemma lock_first_mark name s :
  name ∈ Name <$> s →
  NoDup (Name <$> s) →
  (∀ st, st ∈ s → Name st = name → Locked st = false) →
  lock_first name s = (mark [name] <$> s, None).
Proof.
  induction s as [|x s IH]; intros Hin Hnd Hun.
  { by apply elem_of_nil in Hin. }
  simpl in *. apply NoDup_cons in Hnd as [Hx Hnd].
  destruct (String.eqb_spec (Name x) name) as [Heq|Hne].
  - unfold State_Lock. rewrite (Hun x); [|left|done].
    f_equal. f_equal.
    + unfold mark. rewrite Heq, (Hun x); [|left|done].
      simpl. by rewrite bool_decide_true by left.
    + transitivity (id <$> s); [by rewrite list_fmap_id|].
      apply list_fmap_ext. intros i y Hy. simpl.
      rewrite mark_other, mark_nil; [done|].
      intros Hn. apply Hx. rewrite Heq, <- Hn.
      apply list_elem_of_fmap_2. by eapply list_elem_of_lookup_2.
  - rewrite IH; [| |done|].
    + by rewrite mark_other, mark_nil.
    + apply elem_of_cons in Hin as [Hin|Hin]; [congruence | done].
    + intros st Hst. apply Hun. by right.
Qed.

Lemma run_action_Lock locks s :
  NoDup locks →
  NoDup (Name <$> s) →
  (∀ n, n ∈ locks → n ∈ Name <$> s) →
  (∀ st, st ∈ s → Locked st = true → Name st ∉ locks) →
  run_action States_Lock locks s = (mark locks <$> s, None).
Proof.
  intros Hl. revert s. induction Hl as [|n locks Hn Hl IH];
    intros s Hnd Hsub Hun; simpl.
  - f_equal. transitivity (id <$> s); [by rewrite list_fmap_id|].
    apply list_fmap_ext. intros i y Hy. by rewrite mark_nil.
  - rewrite States_Lock_lock_first, lock_first_mark; [|by apply Hsub; left|done|].
    + rewrite IH.
      * f_equal. rewrite <- list_fmap_compose.
        apply list_fmap_ext. intros i y Hy. unfold mark. simpl.
        f_equal. rewrite <- orb_assoc. f_equal.
        rewrite <- bool_decide_or. apply bool_decide_ext.
        rewrite !elem_of_cons, elem_of_nil. tauto.
      * by rewrite <- list_fmap_compose.
      * intros m Hm. rewrite <- list_fmap_compose. apply Hsub. by right.
      * intros st (y & -> & Hy)%list_elem_of_fmap. simpl.
        intros [Hlk|Hy']%orb_true_iff.
        -- specialize (Hun y Hy Hlk). by apply not_elem_of_cons in Hun as [_ ?].
        -- apply bool_decide_eq_true in Hy'.
           apply elem_of_cons in Hy' as [->|Hy']; [done|].
           by apply elem_of_nil in Hy'.
    + intros st Hst Hname. destruct (Locked st) eqn:E; [|done].
      destruct (Hun st Hst E). rewrite Hname. left.
Qed.

Lemma run_action_Lock_orphan locks s :
  (∃ n, n ∈ locks ∧ n ∉ Name <$> s) →
  ∃ s' err, run_action States_Lock locks s = (s', Some err).
Proof.
  revert s. induction locks as [|m locks IH]; intros s (n & Hin & Hout).
  { by apply elem_of_nil in Hin. }
  simpl. rewrite States_Lock_lock_first.
  destruct (lock_first m s) as [s' [err|]] eqn:E; [by eauto|].
  apply elem_of_cons in Hin as [->|Hin].
  - apply lock_first_missing in Hout. rewrite E in Hout. done.
  - apply IH. exists n. split; [done|].
    pose proof (lock_first_names m s) as Hnames. rewrite E in Hnames.
    simpl in Hnames. by rewrite Hnames.
Qed.

End Roster.

(** * Theorems *)

(** ** Writes and deletes under a lock *)

(** C1: when the lock marker of [name] is present (a regular file that can
    be inspected), a POST and a DELETE for [name] both answer 423 and leave
    the file system, hence the content artifact, as it was. *)
Theorem locked_rejects_post_and_delete s fs r name d :
  nodes fs !! lockPath s name = Some (File d) →
  fault fs SysStat (lockPath s name) = None →
  (StatusCode (handlePost s fs NewRecorder r name).1 = 423
   ∧ (handlePost s fs NewRecorder r name).2 = fs)
  ∧ (StatusCode (handleDelete s fs NewRecorder r name).1 = 423
     ∧ (handleDelete s fs NewRecorder r name).2 = fs).
Proof.
  intros Hn Hf. pose proof (isLocked_present s fs name d Hn Hf) as Hl.
  rewrite (handlePost_locked s fs r name Hl).
  rewrite (handleDelete_locked s fs r name Hl). done.
Qed.

Lemma locked_rejects_post_and_delete_witness :
  nodes fs_locked !! lockPath store "prod" = Some (File [])
  ∧ (StatusCode (handlePost store fs_locked NewRecorder (post_req sample)
                   "prod").1 = 423
     ∧ (handlePost store fs_locked NewRecorder (post_req sample) "prod").2
       = fs_locked)
  ∧ (StatusCode (handleDelete store fs_locked NewRecorder (post_req sample)
                   "prod").1 = 423
     ∧ (handleDelete store fs_locked NewRecorder (post_req sample) "prod").2
       = fs_locked).
Proof.
  split; [reflexivity|].
  apply (locked_rejects_post_and_delete store fs_locked (post_req sample)
           "prod" []); reflexivity.
Defined.

(** ** Delete of an absent entry *)

(** C2, as the code has it: for a name that is not locked and has no content
    artifact, the removal fails and DELETE reports it: the status is 500,
    the body is the generic message, and nothing changes. *)
Theorem delete_absent_is_error s fs r name :
  isLocked s fs name = false →
  nodes fs !! statePath s name = None →
  StatusCode (handleDelete s fs NewRecorder r name).1 = 500
  ∧ Body (handleDelete s fs NewRecorder r name).1
    = error_body "Internal Server Error"
  ∧ (handleDelete s fs NewRecorder r name).2 = fs.
Proof.
  intros Hl Hn. by rewrite (handleDelete_absent s fs r name Hl Hn).
Qed.

Lemma delete_absent_is_error_witness :
  isLocked store fs_empty "prod" = false
  ∧ nodes fs_empty !! statePath store "prod" = None
  ∧ StatusCode (handleDelete store fs_empty NewRecorder (bare_req "DELETE")
                  "prod").1 = 500.
Proof.
  split; [reflexivity|]. split; [reflexivity|].
  apply (delete_absent_is_error store fs_empty (bare_req "DELETE") "prod");
    reflexivity.
Defined.

(** C2 as stated fails: in an empty storage directory with no failing call,
    [prod] is not locked and has no content, and DELETE answers 500, not
    200. *)
Lemma delete_absent_not_200 :
  isLocked store fs_empty "prod" = false
  ∧ nodes fs_empty !! statePath store "prod" = None
  ∧ fault fs_empty SysRemove (statePath store "prod") = None
  ∧ StatusCode (handleDelete store fs_empty NewRecorder (bare_req "DELETE")
                  "prod").1 = 500
  ∧ StatusCode (handleDelete store fs_empty NewRecorder (bare_req "DELETE")
                  "prod").1 ≠ 200.
Proof. repeat split; try reflexivity. discriminate. Qed.

(** ** A failing write *)

(** C3 at a failing input: on a full disk, [prod] is not locked and absent,
    the write of the body fails, and the response carries the status 201
    written before the write, with the body of the 500 answer. *)
Theorem post_write_error_on_absent_answers_201 :
  isLocked store fs_full "prod" = false
  ∧ nodes fs_full !! statePath store "prod" = None
  ∧ (os_WriteFile fs_full (statePath store "prod") sample defaultFileMode).2
    = Some (PathError ENOSPC)
  ∧ StatusCode (handlePost store fs_full NewRecorder (post_req sample)
                  "prod").1 = 201
  ∧ Body (handlePost store fs_full NewRecorder (post_req sample) "prod").1
    = error_body "Internal Server Error".
Proof. repeat split; reflexivity. Qed.

(** ** Lock and unlock *)

(** C4: for a name with no lock marker, whether or not it has content, LOCK
    creates the (empty) marker and answers 200 when the create call does not
    fail; for a name whose marker is present, LOCK answers 423 and changes
    nothing.  In both cases the content artifact is as it was. *)
Theorem lock_creates_marker_or_rejects s fs r name :
  (nodes fs !! lockPath s name = None →
   fault fs SysCreate (lockPath s name) = None →
   StatusCode (handleLock s fs NewRecorder r name).1 = 200
   ∧ nodes (handleLock s fs NewRecorder r name).2 !! lockPath s name
     = Some (File [])
   ∧ nodes (handleLock s fs NewRecorder r name).2 !! statePath s name
     = nodes fs !! statePath s name)
  ∧ (∀ d, nodes fs !! lockPath s name = Some (File d) →
          fault fs SysStat (lockPath s name) = None →
          StatusCode (handleLock s fs NewRecorder r name).1 = 423
          ∧ (handleLock s fs NewRecorder r name).2 = fs).
Proof.
  split.
  - intros Hn Hf.
    rewrite (handleLock_created s fs r name); [| by apply isLocked_absent
                                               | done | congruence].
    simpl. split; [done|]. split; [apply lookup_insert_eq|].
    apply lookup_insert_ne, lockPath_ne_statePath.
  - intros d Hn Hf.
    by rewrite (handleLock_locked s fs r name
                  (isLocked_present s fs name d Hn Hf)).
Qed.

Lemma lock_creates_marker_or_rejects_witness :
  (StatusCode (handleLock store fs_empty NewRecorder (bare_req "LOCK")
                 "prod").1 = 200
   ∧ nodes (handleLock store fs_empty NewRecorder (bare_req "LOCK")
              "prod").2 !! lockPath store "prod" = Some (File []))
  ∧ (StatusCode (handleLock store fs_present NewRecorder (bare_req "LOCK")
                   "prod").1 = 200
     ∧ nodes (handleLock store fs_present NewRecorder (bare_req "LOCK")
                "prod").2 !! statePath store "prod" = Some (File [Byte.x31]))
  ∧ (StatusCode (handleLock store fs_locked NewRecorder (bare_req "LOCK")
                   "prod").1 = 423
     ∧ (handleLock store fs_locked NewRecorder (bare_req "LOCK") "prod").2
       = fs_locked).
Proof.
  split; [|split].
  - destruct (lock_creates_marker_or_rejects store fs_empty
                (bare_req "LOCK") "prod") as [H _].
    destruct (H eq_refl eq_refl) as (H1 & H2 & _). by split.
  - destruct (lock_creates_marker_or_rejects store fs_present
                (bare_req "LOCK") "prod") as [H _].
    destruct (H eq_refl eq_refl) as (H1 & _ & H3). by split.
  - destruct (lock_creates_marker_or_rejects store fs_locked
                (bare_req "LOCK") "prod") as [_ H].
    exact (H [] eq_refl eq_refl).
Defined.

(** C5: for a name whose lock marker is present, UNLOCK removes the marker
    and answers 200 when the remove call does not fail, and the content
    artifact is as it was; for a name with no lock marker, UNLOCK answers 409
    and changes nothing. *)
Theorem unlock_removes_marker_or_conflicts s fs r name :
  (∀ d, nodes fs !! lockPath s name = Some (File d) →
        fault fs SysStat (lockPath s name) = None →
        fault fs SysRemove (lockPath s name) = None →
        StatusCode (handleUnlock s fs NewRecorder r name).1 = 200
        ∧ nodes (handleUnlock s fs NewRecorder r name).2 !! lockPath s name
          = None
        ∧ nodes (handleUnlock s fs NewRecorder r name).2 !! statePath s name
          = nodes fs !! statePath s name)
  ∧ (nodes fs !! lockPath s name = None →
     StatusCode (handleUnlock s fs NewRecorder r name).1 = 409
     ∧ (handleUnlock s fs NewRecorder r name).2 = fs).
Proof.
  split.
  - intros d Hn Hs Hf.
    rewrite (handleUnlock_removed s fs r name
               (isLocked_present s fs name d Hn Hs) Hf).
    simpl. split; [done|]. split; [apply lookup_delete_eq|].
    apply lookup_delete_ne, lockPath_ne_statePath.
  - intros Hn.
    by rewrite (handleUnlock_unlocked s fs r name
                  (isLocked_absent s fs name Hn)).
Qed.

Lemma unlock_removes_marker_or_conflicts_witness :
  (StatusCode (handleUnlock store fs_locked NewRecorder (bare_req "UNLOCK")
                 "prod").1 = 200
   ∧ nodes (handleUnlock store fs_locked NewRecorder (bare_req "UNLOCK")
              "prod").2 !! lockPath store "prod" = None
   ∧ nodes (handleUnlock store fs_locked NewRecorder (bare_req "UNLOCK")
              "prod").2 !! statePath store "prod" = Some (File [Byte.x31]))
  ∧ (StatusCode (handleUnlock store fs_present NewRecorder
                   (bare_req "UNLOCK") "prod").1 = 409
     ∧ (handleUnlock store fs_present NewRecorder (bare_req "UNLOCK")
          "prod").2 = fs_present).
Proof.
  split.
  - destruct (unlock_removes_marker_or_conflicts store fs_locked
                (bare_req "UNLOCK") "prod") as [H _].
    exact (H [] eq_refl eq_refl eq_refl).
  - destruct (unlock_removes_marker_or_conflicts store fs_present
                (bare_req "UNLOCK") "prod") as [_ H].
    exact (H eq_refl).
Defined.

(** ** The list of all states *)

(** C6: for the listing [entries] of the storage directory, when every lock
    marker has its content artifact the list operation answers 200 with a
    roster that has exactly one state per content artifact, locked exactly
    when the matching lock marker is listed; when some lock marker has no
    content artifact it answers 500 with the generic message and no
    roster. *)
Theorem allStates_roster s fs entries :
  fault fs SysOpen (path s) = None →
  File_ReadDir fs (path s) = Ok entries →
  ((∀ n, n +:+ lockFileExt ∈ entries → n +:+ stateFileExt ∈ entries) →
   ∃ roster,
     StatusCode (allStates s fs NewRecorder) = 200
     ∧ Body (allStates s fs NewRecorder)
       = [Json {| Status := "ok"; ResultStates := roster |}]
     ∧ NoDup (Name <$> roster)
     ∧ (∀ n, n ∈ Name <$> roster ↔ n +:+ stateFileExt ∈ entries)
     ∧ (∀ st, st ∈ roster →
              (Locked st = true ↔ Name st +:+ lockFileExt ∈ entries)))
  ∧ ((∃ n, n +:+ lockFileExt ∈ entries ∧ n +:+ stateFileExt ∉ entries) →
     StatusCode (allStates s fs NewRecorder) = 500
     ∧ Body (allStates s fs NewRecorder)
       = error_body "Internal Server Error").
Proof.
  intros Hopen Hread.
  pose proof (File_ReadDir_NoDup fs (path s) entries Hread) as Hnd.
  pose proof (NoDup_artifacts_state entries Hnd) as Hnames.
  pose proof (NoDup_artifacts_lock entries Hnd) as Hlocks.
  assert (Name <$> (unlocked <$> artifacts stateFileExt entries)
          = artifacts stateFileExt entries) as Hfresh.
  { rewrite <- list_fmap_compose. apply list_fmap_id. }
  unfold allStates, os_Open. rewrite Hopen, Hread.
  rewrite processEntries_run_action, run_action_Add by done.
  rewrite app_nil_l, processEntries_run_action.
  split.
  - intros Hsub.
    rewrite run_action_Lock; [|done|by rewrite Hfresh| |].
    + eexists. split; [reflexivity|]. split; [reflexivity|].
      rewrite <- !list_fmap_compose. split; [by rewrite list_fmap_id|].
      split.
      * intros n. rewrite list_fmap_id. apply elem_of_artifacts_state.
      * intros st (n & -> & Hn)%list_elem_of_fmap. simpl.
        rewrite bool_decide_eq_true. apply elem_of_artifacts_lock.
    + intros n Hn. rewrite Hfresh. apply elem_of_artifacts_state, Hsub.
      by apply elem_of_artifacts_lock.
    + by intros st (n & -> & Hn)%list_elem_of_fmap.
  - intros (n & Hin & Hout).
    destruct (run_action_Lock_orphan (artifacts lockFileExt entries)
                (unlocked <$> artifacts stateFileExt entries))
      as (s' & err & ->); [|done].
    exists n. split; [by apply elem_of_artifacts_lock|].
    rewrite Hfresh. by rewrite elem_of_artifacts_state.
Qed.

Lemma allStates_roster_witness :
  File_ReadDir fs_listing (path store)
  = Ok ["dev.tfstate"; "prod.lock"; "prod.tfstate"]
  ∧ (∃ roster,
       StatusCode (allStates store fs_listing NewRecorder) = 200
       ∧ Body (allStates store fs_listing NewRecorder)
         = [Json {| Status := "ok"; ResultStates := roster |}]
       ∧ NoDup (Name <$> roster)
       ∧ (∀ n, n ∈ Name <$> roster
               ↔ n +:+ stateFileExt
                 ∈ ["dev.tfstate"; "prod.lock"; "prod.tfstate"])
       ∧ (∀ st, st ∈ roster →
                (Locked st = true
                 ↔ Name st +:+ lockFileExt
                   ∈ ["dev.tfstate"; "prod.lock"; "prod.tfstate"])))
  ∧ (StatusCode (allStates store fs_orphan NewRecorder) = 500
     ∧ Body (allStates store fs_orphan NewRecorder)
       = error_body "Internal Server Error").
Proof.
  split; [reflexivity|]. split.
  - destruct (allStates_roster store fs_listing
                ["dev.tfstate"; "prod.lock"; "prod.tfstate"]
                eq_refl eq_refl) as [H _].
    apply H. intros n Hn%elem_of_artifacts_lock.
    change (n ∈ ["prod"]) in Hn. apply list_elem_of_singleton in Hn as ->.
    compute_done.
  - destruct (allStates_roster store fs_orphan ["dev.tfstate"; "prod.lock"]
                eq_refl eq_refl) as [_ H].
    apply H. exists "prod". split; compute_done.
Defined.

(** ** Create or replace *)

(** C7: for a name that is not locked, a POST whose body is read and whose
    write does not fail answers 201 when the content artifact was absent and
    200 when it was present, and afterwards the content artifact holds
    exactly the request body, whatever it held before. *)
Theorem post_created_or_replaced s fs r name data :
  isLocked s fs name = false →
  RequestBody r = Ok data →
  fault fs SysWrite (statePath s name) = None →
  (nodes fs !! statePath s name = None →
   StatusCode (handlePost s fs NewRecorder r name).1 = 201
   ∧ nodes (handlePost s fs NewRecorder r name).2 !! statePath s name
     = Some (File data))
  ∧ (∀ old, nodes fs !! statePath s name = Some (File old) →
            fault fs SysStat (statePath s name) = None →
            StatusCode (handlePost s fs NewRecorder r name).1 = 200
            ∧ nodes (handlePost s fs NewRecorder r name).2 !! statePath s name
              = Some (File data)).
Proof.
  intros Hl Hb Hf. split.
  - intros Hn.
    rewrite (handlePost_written s fs r name data Hl Hb Hf); [|congruence].
    rewrite (exists_absent s fs name Hn). simpl.
    split; [done | apply lookup_insert_eq].
  - intros old Hn Hs.
    rewrite (handlePost_written s fs r name data Hl Hb Hf); [|congruence].
    rewrite (exists_present s fs name old Hn Hs). simpl.
    split; [done | apply lookup_insert_eq].
Qed.

Lemma post_created_or_replaced_witness :
  (StatusCode (handlePost store fs_empty NewRecorder (post_req sample)
                 "prod").1 = 201
   ∧ nodes (handlePost store fs_empty NewRecorder (post_req sample)
              "prod").2 !! statePath store "prod" = Some (File sample))
  ∧ (StatusCode (handlePost store fs_present NewRecorder (post_req sample)
                   "prod").1 = 200
     ∧ nodes (handlePost store fs_present NewRecorder (post_req sample)
                "prod").2 !! statePath store "prod" = Some (File sample)).
Proof.
  split.
  - destruct (post_created_or_replaced store fs_empty (post_req sample)
                "prod" sample eq_refl eq_refl eq_refl) as [H _].
    exact (H eq_refl).
  - destruct (post_created_or_replaced store fs_present (post_req sample)
                "prod" sample eq_refl eq_refl eq_refl) as [_ H].
    exact (H [Byte.x31] eq_refl eq_refl).
Defined.

(** ** Round trip *)

(** C8: for a name that is not locked and any bytes [data], after a POST of
    [data] whose write does not fail, a GET of the same name (whose read does
    not fail) answers 200 with a body that is exactly [data]. *)
Theorem post_then_get_roundtrip s fs r r' name data :
  isLocked s fs name = false →
  RequestBody r = Ok data →
  fault fs SysWrite (statePath s name) = None →
  (∀ b, nodes fs !! statePath s name ≠ Some (Dir b)) →
  fault fs SysRead (statePath s name) = None →
  let fs' := (handlePost s fs NewRecorder r name).2 in
  StatusCode (handleGet s fs' NewRecorder r' name).1 = 200
  ∧ Body (handleGet s fs' NewRecorder r' name).1 = [Bytes data].
Proof.
  intros Hl Hb Hf Hd Hr.
  rewrite (handlePost_written s fs r name data Hl Hb Hf Hd). simpl.
  unfold handleGet, os_ReadFile. fold (statePath s name). simpl.
  rewrite Hr, lookup_insert_eq. done.
Qed.

Lemma post_then_get_roundtrip_witness :
  StatusCode (handleGet store
                (handlePost store fs_empty NewRecorder (post_req sample)
                   "prod").2
                NewRecorder (bare_req "GET") "prod").1 = 200
  ∧ Body (handleGet store
            (handlePost store fs_empty NewRecorder (post_req sample)
               "prod").2
            NewRecorder (bare_req "GET") "prod").1 = [Bytes sample].
Proof.
  apply (post_then_get_roundtrip store fs_empty (post_req sample)
           (bare_req "GET") "prod" sample); try reflexivity.
  intros b H. discriminate H.
Defined.

(** ** Read *)

(** C9: a GET answers 200 with the stored bytes when the content artifact
    exists and is read, 404 when there is no content artifact, and 500 when
    the read fails with any error other than non-existence; the file system
    is never changed. *)
Theorem get_status s fs r name :
  (∀ data, nodes fs !! statePath s name = Some (File data) →
           fault fs SysRead (statePath s name) = None →
           StatusCode (handleGet s fs NewRecorder r name).1 = 200
           ∧ Body (handleGet s fs NewRecorder r name).1 = [Bytes data])
  ∧ (nodes fs !! statePath s name = None →
     fault fs SysRead (statePath s name) = None →
     StatusCode (handleGet s fs NewRecorder r name).1 = 404)
  ∧ (∀ err, os_ReadFile fs (statePath s name) = Err err →
            is_ErrNotExist err = false →
            StatusCode (handleGet s fs NewRecorder r name).1 = 500
            ∧ Body (handleGet s fs NewRecorder r name).1
              = error_body "Internal Server Error")
  ∧ (handleGet s fs NewRecorder r name).2 = fs.
Proof.
  unfold handleGet. fold (statePath s name).
  split; [|split; [|split]].
  - intros data Hn Hf. unfold os_ReadFile. by rewrite Hf, Hn.
  - intros Hn Hf. unfold os_ReadFile. by rewrite Hf, Hn.
  - by intros err -> ->.
  - destruct (os_ReadFile fs (statePath s name)) as [d|e]; [done|].
    by destruct (is_ErrNotExist e).
Qed.

Lemma get_status_witness :
  (StatusCode (handleGet store fs_present NewRecorder (bare_req "GET")
                 "prod").1 = 200
   ∧ Body (handleGet store fs_present NewRecorder (bare_req "GET") "prod").1
     = [Bytes [Byte.x31]])
  ∧ StatusCode (handleGet store fs_empty NewRecorder (bare_req "GET")
                  "prod").1 = 404
  ∧ StatusCode (handleGet store fs_unreadable NewRecorder (bare_req "GET")
                  "prod").1 = 500.
Proof.
  split; [|split].
  - destruct (get_status store fs_present (bare_req "GET") "prod")
      as (H & _). exact (H [Byte.x31] eq_refl eq_refl).
  - destruct (get_status store fs_empty (bare_req "GET") "prod")
      as (_ & H & _). exact (H eq_refl eq_refl).
  - destruct (get_status store fs_unreadable (bare_req "GET") "prod")
      as (_ & _ & H & _).
    exact (proj1 (H (PathError EACCES) eq_refl eq_refl)).
Defined.

(** ** Failing stat *)

(** C10: [isLocked] and [exists] answer [false] whenever the stat call
    returns an error, whatever the error.  So when the lock marker of [name]
    is present but cannot be inspected, a POST whose write does not fail is
    not answered 423 or 500 and replaces the content, and a DELETE of
    present content removes it and answers 200. *)
Theorem stat_failure_reads_as_unlocked s fs r name :
  (∀ err, os_Stat fs (lockPath s name) = Err err → isLocked s fs name = false)
  ∧ (∀ err, os_Stat fs (statePath s name) = Err err →
            exists_ s fs name = false)
  ∧ (∀ e marker,
       nodes fs !! lockPath s name = Some (File marker) →
       fault fs SysStat (lockPath s name) = Some e →
       (∀ data,
          RequestBody r = Ok data →
          fault fs SysWrite (statePath s name) = None →
          (∀ b, nodes fs !! statePath s name ≠ Some (Dir b)) →
          StatusCode (handlePost s fs NewRecorder r name).1 ≠ 423
          ∧ StatusCode (handlePost s fs NewRecorder r name).1 ≠ 500
          ∧ nodes (handlePost s fs NewRecorder r name).2 !! statePath s name
            = Some (File data))
       ∧ (∀ old,
            nodes fs !! statePath s name = Some (File old) →
            fault fs SysRemove (statePath s name) = None →
            StatusCode (handleDelete s fs NewRecorder r name).1 = 200
            ∧ nodes (handleDelete s fs NewRecorder r name).2
                !! statePath s name = None)).
Proof.
  split; [|split].
  - intros err H. unfold isLocked. fold (lockPath s name). by rewrite H.
  - intros err H. unfold exists_. fold (statePath s name). by rewrite H.
  - intros e marker Hm He.
    assert (isLocked s fs name = false) as Hl.
    { unfold isLocked, os_Stat. fold (lockPath s name). by rewrite He. }
    split.
    + intros data Hb Hf Hd.
      rewrite (handlePost_written s fs r name data Hl Hb Hf Hd). simpl.
      split; [|split; [|apply lookup_insert_eq]];
        by destruct (exists_ s fs name).
    + intros old Hn Hf.
      rewrite (handleDelete_removed s fs r name old Hl Hn Hf). simpl.
      split; [done | apply lookup_delete_eq].
Qed.

Lemma stat_failure_reads_as_unlocked_witness :
  nodes fs_stat_denied !! lockPath store "prod" = Some (File [])
  ∧ isLocked store fs_stat_denied "prod" = false
  ∧ (StatusCode (handlePost store fs_stat_denied NewRecorder (post_req sample)
                   "prod").1 ≠ 423
     ∧ StatusCode (handlePost store fs_stat_denied NewRecorder
                     (post_req sample) "prod").1 ≠ 500
     ∧ nodes (handlePost store fs_stat_denied NewRecorder (post_req sample)
                "prod").2 !! statePath store "prod" = Some (File sample))
  ∧ (StatusCode (handleDelete store fs_stat_denied NewRecorder
                   (bare_req "DELETE") "prod").1 = 200
     ∧ nodes (handleDelete store fs_stat_denied NewRecorder
                (bare_req "DELETE") "prod").2 !! statePath store "prod"
       = None).
Proof.
  split; [reflexivity|]. split; [|split].
  - destruct (stat_failure_reads_as_unlocked store fs_stat_denied
                (post_req sample) "prod") as (H & _).
    exact (H (PathError EACCES) eq_refl).
  - destruct (stat_failure_reads_as_unlocked store fs_stat_denied
                (post_req sample) "prod") as (_ & _ & H).
    destruct (H EACCES [] eq_refl eq_refl) as [Hpost _].
    apply (Hpost sample); try reflexivity. intros b Hb. discriminate Hb.
  - destruct (stat_failure_reads_as_unlocked store fs_stat_denied
                (bare_req "DELETE") "prod") as (_ & _ & H).
    destruct (H EACCES [] eq_refl eq_refl) as [_ Hdel].
    exact (Hdel [Byte.x31] eq_refl eq_refl).
Defined.

(** * Further properties *)

(** ** Shared lemmas *)

Section MoreHandlers.
Variables (s : Storage) (fs : FS) (r : Request) (name : string).

Lemma handleLock_create_error e :
  isLocked s fs name = false →
  (os_Create fs (lockPath s name)).2 = Some e →
  handleLock s fs NewRecorder r name
  = (http_Error NewRecorder "Internal Server Error"
       StatusInternalServerError, fs).
Proof.
  intros Hl. unfold handleLock. fold (lockPath s name). rewrite Hl.
  unfold os_Create.
  destruct (fault fs SysCreate (lockPath s name)); [done|].
  by destruct (nodes fs !! lockPath s name) as [[d|b]|].
Qed.

Lemma handleUnlock_remove_error e :
  isLocked s fs name = true →
  fault fs SysRemove (lockPath s name) = Some e →
  handleUnlock s fs NewRecorder r name
  = (http_Error NewRecorder "Internal Server Error"
       StatusInternalServerError, fs).
Proof.
  intros Hl Hf. unfold handleUnlock, os_Remove. fold (lockPath s name).
  by rewrite Hl, Hf.
Qed.

Lemma Z_elem_of_statuses (c : Z) :
  c ∈ statuses ↔
  c = 200 ∨ c = 201 ∨ c = 400 ∨ c = 404 ∨ c = 405 ∨ c = 409 ∨ c = 423
  ∨ c = 500.
Proof.
  unfold statuses. rewrite !elem_of_cons, elem_of_nil. tauto.
Qed.

Lemma handleGet_statuses :
  StatusCode (handleGet s fs NewRecorder r name).1 ∈ [200; 404; 500].
Proof.
  unfold handleGet. destruct (os_ReadFile _ _) as [d|e]; simpl.
  - apply list_elem_of_here.
  - destruct (is_ErrNotExist e); simpl; compute_done.
Qed.

Lemma handlePost_statuses :
  StatusCode (handlePost s fs NewRecorder r name).1
  ∈ [200; 201; 400; 423; 500].
Proof.
  unfold handlePost, io_ReadAll. destruct (isLocked s fs name); [compute_done|].
  destruct (RequestBody r) as [d|e]; [|compute_done].
  destruct (exists_ s fs name); simpl;
    destruct (os_WriteFile _ _ _ _) as [fs' [e|]]; compute_done.
Qed.

Lemma handleDelete_statuses :
  StatusCode (handleDelete s fs NewRecorder r name).1 ∈ [200; 423; 500].
Proof.
  unfold handleDelete. destruct (isLocked s fs name); [compute_done|].
  destruct (os_Remove _ _) as [fs' [e|]]; compute_done.
Qed.

Lemma handleLock_statuses :
  StatusCode (handleLock s fs NewRecorder r name).1 ∈ [200; 423; 500].
Proof.
  unfold handleLock. destruct (isLocked s fs name); [compute_done|].
  destruct (os_Create _ _) as [fs' [e|]]; compute_done.
Qed.

Lemma handleUnlock_statuses :
  StatusCode (handleUnlock s fs NewRecorder r name).1 ∈ [200; 409; 500].
Proof.
  unfold handleUnlock. destruct (isLocked s fs name); simpl; [|compute_done].
  destruct (os_Remove _ _) as [fs' [e|]]; compute_done.
Qed.

End MoreHandlers.

Lemma handlers_Some method h :
  handlers method = Some h →
  method ∈ methods
  ∧ (h = handleGet ∨ h = handlePost ∨ h = handleDelete ∨ h = handleLock
     ∨ h = handleUnlock).
Proof.
  unfold handlers, methods.
  destruct (String.eqb_spec method "GET") as [->|];
    [intros [= <-]; split; [compute_done | tauto] |].
  destruct (String.eqb_spec method "POST") as [->|];
    [intros [= <-]; split; [compute_done | tauto] |].
  destruct (String.eqb_spec method "DELETE") as [->|];
    [intros [= <-]; split; [compute_done | tauto] |].
  destruct (String.eqb_spec method "LOCK") as [->|];
    [intros [= <-]; split; [compute_done | tauto] |].
  destruct (String.eqb_spec method "UNLOCK") as [->|];
    [intros [= <-]; split; [compute_done | tauto] |].
  done.
Qed.

Lemma handlers_None method : handlers method = None ↔ method ∉ methods.
Proof.
  split.
  - intros Hn Hin. unfold methods in Hin.
    repeat (apply elem_of_cons in Hin as [->|Hin]; [done|]).
    by apply elem_of_nil in Hin.
  - intros Hn. destruct (handlers method) as [h|] eqn:E; [|done].
    by apply handlers_Some in E as [? _].
Qed.

Lemma handler_statuses s fs r name method h :
  handlers method = Some h →
  StatusCode (h s fs NewRecorder r name).1 ∈ statuses
  ∧ StatusCode (h s fs NewRecorder r name).1 ≠ 405.
Proof.
  intros (_ & [->|[->|[->|[->| ->]]]])%handlers_Some.
  - pose proof (handleGet_statuses s fs r name) as H.
    revert H. generalize (StatusCode (handleGet s fs NewRecorder r name).1).
    intros c. rewrite Z_elem_of_statuses, !elem_of_cons, elem_of_nil. lia.
  - pose proof (handlePost_statuses s fs r name) as H.
    revert H. generalize (StatusCode (handlePost s fs NewRecorder r name).1).
    intros c. rewrite Z_elem_of_statuses, !elem_of_cons, elem_of_nil. lia.
  - pose proof (handleDelete_statuses s fs r name) as H.
    revert H. generalize (StatusCode (handleDelete s fs NewRecorder r name).1).
    intros c. rewrite Z_elem_of_statuses, !elem_of_cons, elem_of_nil. lia.
  - pose proof (handleLock_statuses s fs r name) as H.
    revert H. generalize (StatusCode (handleLock s fs NewRecorder r name).1).
    intros c. rewrite Z_elem_of_statuses, !elem_of_cons, elem_of_nil. lia.
  - pose proof (handleUnlock_statuses s fs r name) as H.
    revert H. generalize (StatusCode (handleUnlock s fs NewRecorder r name).1).
    intros c. rewrite Z_elem_of_statuses, !elem_of_cons, elem_of_nil. lia.
Qed.

Lemma handlers_Some_inv method h :
  handlers method = Some h →
  (method = "GET" ∧ h = handleGet) ∨ (method = "POST" ∧ h = handlePost)
  ∨ (method = "DELETE" ∧ h = handleDelete)
  ∨ (method = "LOCK" ∧ h = handleLock)
  ∨ (method = "UNLOCK" ∧ h = handleUnlock).
Proof.
  unfold handlers.
  destruct (String.eqb_spec method "GET") as [->|];
    [intros [= <-]; tauto |].
  destruct (String.eqb_spec method "POST") as [->|];
    [intros [= <-]; tauto |].
  destruct (String.eqb_spec method "DELETE") as [->|];
    [intros [= <-]; tauto |].
  destruct (String.eqb_spec method "LOCK") as [->|];
    [intros [= <-]; tauto |].
  destruct (String.eqb_spec method "UNLOCK") as [->|];
    [intros [= <-]; tauto |].
  done.
Qed.

(** The status of each handler, by cases on what it consults. *)
Section HandlerStatus.
Variables (s : Storage) (fs : FS) (r : Request) (name : string).

Lemma handleGet_status :
  StatusCode (handleGet s fs NewRecorder r name).1
  = match os_ReadFile fs (statePath s name) with
    | Ok _ => 200
    | Err err => if is_ErrNotExist err then 404 else 500
    end.
Proof.
  unfold handleGet. fold (statePath s name).
  destruct (os_ReadFile fs (statePath s name)) as [d|e]; [done|].
  by destruct (is_ErrNotExist e).
Qed.

Lemma handlePost_status :
  StatusCode (handlePost s fs NewRecorder r name).1
  = if isLocked s fs name then 423
    else match RequestBody r with
         | Err _ => 400
         | Ok data =>
             if exists_ s fs name then
               match (os_WriteFile fs (statePath s name) data
                        defaultFileMode).2 with
               | Some _ => 500
               | None => 200
               end
             else 201
         end.
Proof.
  unfold handlePost, io_ReadAll. fold (statePath s name).
  destruct (isLocked s fs name); [done|].
  destruct (RequestBody r) as [d|e]; [|done].
  destruct (exists_ s fs name); simpl;
    by destruct (os_WriteFile _ _ _ _) as [fs' [e|]].
Qed.

Lemma handleDelete_status :
  StatusCode (handleDelete s fs NewRecorder r name).1
  = if isLocked s fs name then 423
    else match (os_Remove fs (statePath s name)).2 with
         | Some _ => 500
         | None => 200
         end.
Proof.
  unfold handleDelete. fold (statePath s name).
  destruct (isLocked s fs name); [done|].
  by destruct (os_Remove _ _) as [fs' [e|]].
Qed.

Lemma handleLock_status :
  StatusCode (handleLock s fs NewRecorder r name).1
  = if isLocked s fs name then 423
    else match (os_Create fs (lockPath s name)).2 with
         | Some _ => 500
         | None => 200
         end.
Proof.
  unfold handleLock. fold (lockPath s name).
  destruct (isLocked s fs name); [done|].
  by destruct (os_Create _ _) as [fs' [e|]].
Qed.

Lemma handleUnlock_status :
  StatusCode (handleUnlock s fs NewRecorder r name).1
  = if isLocked s fs name then
      match (os_Remove fs (lockPath s name)).2 with
      | Some _ => 500
      | None => 200
      end
    else 409.
Proof.
  unfold handleUnlock. fold (lockPath s name).
  destruct (isLocked s fs name); [|done]. simpl.
  by destruct (os_Remove _ _) as [fs' [e|]].
Qed.

End HandlerStatus.

(** ** The router *)

(** X1: the router rejects a request without a name with 400, whatever its
    method, and answers a named request 405 exactly when its method is not
    one of GET, POST, DELETE, LOCK and UNLOCK (compared as written, so [get]
    is not GET); a request it rejects changes nothing. *)
Theorem handleState_rejects s fs r :
  (PathValue r "name" = "" →
   StatusCode (handleState s fs NewRecorder r).1 = 400
   ∧ Body (handleState s fs NewRecorder r).1
     = error_body "Bad Request: missing name"
   ∧ (handleState s fs NewRecorder r).2 = fs)
  ∧ (PathValue r "name" ≠ "" →
     (StatusCode (handleState s fs NewRecorder r).1 = 405
      ↔ Method r ∉ methods)
     ∧ (Method r ∉ methods →
        Body (handleState s fs NewRecorder r).1
        = error_body "Method Not Allowed"
        ∧ (handleState s fs NewRecorder r).2 = fs)).
Proof.
  unfold handleState. split.
  - by intros ->.
  - intros Hn. destruct (String.eqb_spec (PathValue r "name") ""); [done|].
    destruct (handlers (Method r)) as [h|] eqn:E.
    + pose proof (handler_statuses s fs r (PathValue r "name") _ h E)
        as [_ H405].
      apply handlers_Some in E as [Hin _]. split; [split; done | done].
    + apply handlers_None in E. split; [split; done | done].
Qed.

Lemma handleState_rejects_witness :
  StatusCode (handleState store fs_locked NewRecorder
                (nameless_req "PATCH")).1 = 400
  ∧ StatusCode (handleState store fs_present NewRecorder (bare_req "get")).1
    = 405
  ∧ (handleState store fs_present NewRecorder (bare_req "PUT")).2
    = fs_present
  ∧ StatusCode (handleState store fs_present NewRecorder
                  (bare_req "DELETE")).1 ≠ 405.
Proof.
  split; [|split; [|split]].
  - apply (handleState_rejects store fs_locked (nameless_req "PATCH")).
    reflexivity.
  - apply (handleState_rejects store fs_present (bare_req "get"));
      compute_done.
  - apply (handleState_rejects store fs_present (bare_req "PUT"));
      compute_done.
  - intros H.
    apply (handleState_rejects store fs_present (bare_req "DELETE")) in H;
      [|compute_done].
    apply H. compute_done.
Defined.

(** Settles the equivalences of a status once every test of the handler
    has been decided. *)
Ltac status_iffs :=
  split_and!;
  (split;
   [ intros ?; try done; split_and?; try done; try tauto;
     try (eexists; split; [reflexivity | done]); try by eexists
   | intros ?; try done; destruct_and?; destruct_or?; try done;
     repeat match goal with
            | H : ∃ _, _ |- _ => destruct H
            end;
     destruct_and?; simplify_eq; try done; congruence ]).

(** X2: what each client error of a named request means.  400 is answered
    exactly to a POST for a name that is not locked whose body cannot be
    read; 423 exactly to a POST, DELETE or LOCK for a locked name; 409
    exactly to an UNLOCK for a name that is not locked; 404 exactly to a GET
    whose read fails because the content does not exist. *)
Theorem client_error_statuses s fs r :
  let name := PathValue r "name" in
  let status := StatusCode (handleState s fs NewRecorder r).1 in
  name ≠ "" →
  (status = 400
   ↔ Method r = "POST" ∧ isLocked s fs name = false
     ∧ ∃ e, RequestBody r = Err e)
  ∧ (status = 423
     ↔ (Method r = "POST" ∨ Method r = "DELETE" ∨ Method r = "LOCK")
       ∧ isLocked s fs name = true)
  ∧ (status = 409 ↔ Method r = "UNLOCK" ∧ isLocked s fs name = false)
  ∧ (status = 404
     ↔ Method r = "GET"
       ∧ ∃ err, os_ReadFile fs (statePath s name) = Err err
                ∧ is_ErrNotExist err = true).
Proof.
  intros name status Hn. subst status. unfold handleState. fold name.
  destruct (String.eqb_spec name ""); [done|].
  destruct (handlers (Method r)) as [h|] eqn:E.
  - apply handlers_Some_inv in E
      as [[-> ->]|[[-> ->]|[[-> ->]|[[-> ->]|[-> ->]]]]].
    + rewrite handleGet_status.
      destruct (os_ReadFile fs (statePath s name)) as [d|err];
        [|destruct (is_ErrNotExist err) eqn:Hne]; status_iffs.
    + rewrite handlePost_status.
      destruct (isLocked s fs name); [|destruct (RequestBody r) as [d|e];
        [destruct (exists_ s fs name);
         [destruct (os_WriteFile _ _ _ _).2|]|]]; status_iffs.
    + rewrite handleDelete_status.
      destruct (isLocked s fs name); [|destruct (os_Remove _ _).2];
        status_iffs.
    + rewrite handleLock_status.
      destruct (isLocked s fs name); [|destruct (os_Create _ _).2];
        status_iffs.
    + rewrite handleUnlock_status.
      destruct (isLocked s fs name); [destruct (os_Remove _ _).2|];
        status_iffs.
  - apply handlers_None in E. simpl.
    split_and!; (split; [done|]); intros H; exfalso; apply E;
      destruct_and?; destruct_or?;
      match goal with HM : Method r = _ |- _ => rewrite HM end;
      compute_done.
Qed.

Lemma client_error_statuses_witness :
  (StatusCode (handleState store fs_present NewRecorder broken_req).1 = 400
   ↔ Method broken_req = "POST" ∧ isLocked store fs_present "prod" = false
     ∧ ∃ e, RequestBody broken_req = Err e)
  ∧ StatusCode (handleState store fs_locked NewRecorder
                  (bare_req "DELETE")).1 = 423.
Proof.
  assert (PathValue broken_req "name" ≠ "") as H1 by discriminate.
  assert (PathValue (bare_req "DELETE") "name" ≠ "") as H2 by discriminate.
  split.
  - exact (proj1 (client_error_statuses store fs_present broken_req H1)).
  - apply (proj1 (proj2 (client_error_statuses store fs_locked
                           (bare_req "DELETE") H2))).
    split; [|reflexivity]. right. left. reflexivity.
Defined.

(** X3: whatever the store holds and whichever calls fail, the status of a
    named or nameless request is one of 200, 201, 400, 404, 405, 409, 423
    and 500. *)
Theorem handleState_statuses s fs r :
  StatusCode (handleState s fs NewRecorder r).1 ∈ statuses.
Proof.
  unfold handleState.
  destruct (String.eqb (PathValue r "name") ""); [compute_done|].
  destruct (handlers (Method r)) as [h|] eqn:E; [|compute_done].
  by apply (handler_statuses s fs r (PathValue r "name")) in E as [? _].
Qed.

Section MorePaths.




Lemma statePath_ne_lockPath_any s n m : statePath s n ≠ lockPath s m.
Proof.
  unfold statePath, lockPath, filepath_Join. intros H.
  apply (inj (String.app (path s))) in H.
  apply (inj (String.app "/")) in H.
  apply (f_equal filepath_Ext) in H.
  rewrite filepath_Ext_state, filepath_Ext_lock in H. discriminate H.
Qed.

End MorePaths.

Section Frame.
Variables (fs : FS) (p q : string).
Hypothesis Hpq : p ≠ q.

Lemma os_WriteFile_other data perm :
  nodes (os_WriteFile fs q data perm).1 !! p = nodes fs !! p.
Proof.
  unfold os_WriteFile. destruct (fault fs SysWrite q); [done|].
  destruct (nodes fs !! q) as [[d|b]|]; simpl; try done;
    by apply lookup_insert_ne.
Qed.

Lemma os_Create_other : nodes (os_Create fs q).1 !! p = nodes fs !! p.
Proof.
  unfold os_Create. destruct (fault fs SysCreate q); [done|].
  destruct (nodes fs !! q) as [[d|b]|]; simpl; try done;
    by apply lookup_insert_ne.
Qed.

Lemma os_Remove_other : nodes (os_Remove fs q).1 !! p = nodes fs !! p.
Proof.
  unfold os_Remove. destruct (fault fs SysRemove q); [done|].
  destruct (nodes fs !! q) as [[d|[|]]|]; simpl; try done;
    by apply lookup_delete_ne.
Qed.

End Frame.

Section HandlerFrames.
Variables (s : Storage) (fs : FS) (r : Request) (name p : string).

Lemma handleGet_unchanged : (handleGet s fs NewRecorder r name).2 = fs.
Proof.
  unfold handleGet. destruct (os_ReadFile _ _) as [d|e]; [done|].
  by destruct (is_ErrNotExist e).
Qed.

Lemma handlePost_other :
  p ≠ statePath s name →
  nodes (handlePost s fs NewRecorder r name).2 !! p = nodes fs !! p.
Proof.
  intros Hp. unfold handlePost, io_ReadAll. fold (statePath s name).
  destruct (isLocked s fs name); [done|].
  destruct (RequestBody r) as [d|e]; [|done].
  pose proof (os_WriteFile_other fs p (statePath s name) Hp d
                defaultFileMode) as H.
  by destruct (os_WriteFile fs (statePath s name) d defaultFileMode)
    as [fs' [e|]].
Qed.

Lemma handleDelete_other :
  p ≠ statePath s name →
  nodes (handleDelete s fs NewRecorder r name).2 !! p = nodes fs !! p.
Proof.
  intros Hp. unfold handleDelete. fold (statePath s name).
  destruct (isLocked s fs name); [done|].
  pose proof (os_Remove_other fs p (statePath s name) Hp) as H.
  by destruct (os_Remove fs (statePath s name)) as [fs' [e|]].
Qed.

Lemma handleLock_other :
  p ≠ lockPath s name →
  nodes (handleLock s fs NewRecorder r name).2 !! p = nodes fs !! p.
Proof.
  intros Hp. unfold handleLock. fold (lockPath s name).
  destruct (isLocked s fs name); [done|].
  pose proof (os_Create_other fs p (lockPath s name) Hp) as H.
  by destruct (os_Create fs (lockPath s name)) as [fs' [e|]].
Qed.

Lemma handleUnlock_other :
  p ≠ lockPath s name →
  nodes (handleUnlock s fs NewRecorder r name).2 !! p = nodes fs !! p.
Proof.
  intros Hp. unfold handleUnlock. fold (lockPath s name).
  destruct (isLocked s fs name); [|done]. simpl.
  pose proof (os_Remove_other fs p (lockPath s name) Hp) as H.
  by destruct (os_Remove fs (lockPath s name)) as [fs' [e|]].
Qed.


End HandlerFrames.

Lemma isLocked_after_create s fs name :
  fault fs SysStat (lockPath s name) = None →
  isLocked s (with_nodes fs (<[lockPath s name := File []]> (nodes fs))) name
  = true.
Proof.
  intros Hs. apply (isLocked_present _ _ _ []); [|done].
  apply lookup_insert_eq.
Qed.

(** ** Requests that fail *)

(** X4: a request that is answered with a client error (400, 404, 405, 409
    or 423) has changed nothing in the store. *)
Theorem client_errors_change_nothing s fs r :
  StatusCode (handleState s fs NewRecorder r).1 ∈ [400; 404; 405; 409; 423] →
  (handleState s fs NewRecorder r).2 = fs.
Proof.
  unfold handleState.
  destruct (String.eqb (PathValue r "name") ""); [done|].
  destruct (handlers (Method r)) as [h|] eqn:E; [|done].
  rewrite !elem_of_cons, elem_of_nil.
  apply handlers_Some in E as (_ & [->|[->|[->|[->| ->]]]]).
  - intros _. apply handleGet_unchanged.
  - unfold handlePost, io_ReadAll.
    destruct (isLocked s fs _); [done|].
    destruct (RequestBody r) as [d|e]; [|done].
    destruct (exists_ s fs _); simpl;
      destruct (os_WriteFile _ _ _ _) as [fs' [e|]]; simpl; intros H;
      exfalso; destruct_or?; done.
  - unfold handleDelete. destruct (isLocked s fs _); [done|].
    destruct (os_Remove _ _) as [fs' [e|]]; simpl; intros H;
      exfalso; destruct_or?; done.
  - unfold handleLock. destruct (isLocked s fs _); [done|].
    destruct (os_Create _ _) as [fs' [e|]]; simpl; intros H;
      exfalso; destruct_or?; done.
  - unfold handleUnlock. destruct (isLocked s fs _); [|done]. simpl.
    destruct (os_Remove _ _) as [fs' [e|]]; simpl; intros H;
      exfalso; destruct_or?; done.
Qed.

Lemma client_errors_change_nothing_witness :
  (handleState store fs_present NewRecorder broken_req).2 = fs_present
  ∧ (handleState store fs_locked NewRecorder (bare_req "DELETE")).2
    = fs_locked.
Proof.
  split.
  - apply (client_errors_change_nothing store fs_present broken_req).
    compute_done.
  - apply (client_errors_change_nothing store fs_locked (bare_req "DELETE")).
    compute_done.
Defined.

(** X5: when the create call of LOCK or the remove call of UNLOCK fails, the
    answer is 500 and the lock state stays as it was: a name that could not
    be locked has no marker, a name that could not be unlocked keeps it. *)
Theorem lock_unlock_failure_keeps_state s fs r name e :
  (isLocked s fs name = false →
   fault fs SysCreate (lockPath s name) = Some e →
   StatusCode (handleLock s fs NewRecorder r name).1 = 500
   ∧ (handleLock s fs NewRecorder r name).2 = fs)
  ∧ (isLocked s fs name = true →
     fault fs SysRemove (lockPath s name) = Some e →
     StatusCode (handleUnlock s fs NewRecorder r name).1 = 500
     ∧ (handleUnlock s fs NewRecorder r name).2 = fs).
Proof.
  split.
  - intros Hl Hf.
    rewrite (handleLock_create_error s fs r name (PathError e) Hl); [done|].
    unfold os_Create. by rewrite Hf.
  - intros Hl Hf. by rewrite (handleUnlock_remove_error s fs r name e Hl Hf).
Qed.

Lemma lock_unlock_failure_keeps_state_witness :
  (StatusCode (handleLock store fs_readonly_unlocked NewRecorder
                 (bare_req "LOCK") "prod").1 = 500
   ∧ (handleLock store fs_readonly_unlocked NewRecorder (bare_req "LOCK")
        "prod").2 = fs_readonly_unlocked)
  ∧ (StatusCode (handleUnlock store fs_readonly NewRecorder
                   (bare_req "UNLOCK") "prod").1 = 500
     ∧ (handleUnlock store fs_readonly NewRecorder (bare_req "UNLOCK")
          "prod").2 = fs_readonly).
Proof.
  split.
  - destruct (lock_unlock_failure_keeps_state store fs_readonly_unlocked
                (bare_req "LOCK") "prod" EROFS) as [H _].
    exact (H eq_refl eq_refl).
  - destruct (lock_unlock_failure_keeps_state store fs_readonly
                (bare_req "UNLOCK") "prod" EROFS) as [_ H].
    exact (H eq_refl eq_refl).
Defined.

(** X6: when [N.lock] is a directory the name counts as not locked: UNLOCK
    answers 409, LOCK answers 500 because the marker cannot be created, and
    neither changes anything. *)
Theorem lock_path_is_directory s fs r name b :
  nodes fs !! lockPath s name = Some (Dir b) →
  isLocked s fs name = false
  ∧ StatusCode (handleUnlock s fs NewRecorder r name).1 = 409
  ∧ (handleUnlock s fs NewRecorder r name).2 = fs
  ∧ StatusCode (handleLock s fs NewRecorder r name).1 = 500
  ∧ (handleLock s fs NewRecorder r name).2 = fs.
Proof.
  intros Hn.
  assert (isLocked s fs name = false) as Hl.
  { destruct (isLocked s fs name) eqn:E; [|done].
    apply isLocked_true_iff in E as [_ [d Hd]]. congruence. }
  split; [done|].
  rewrite (handleUnlock_unlocked s fs r name Hl).
  assert (∃ e, (os_Create fs (lockPath s name)).2 = Some e) as [e He].
  { unfold os_Create. rewrite Hn.
    destruct (fault fs SysCreate (lockPath s name)); eauto. }
  by rewrite (handleLock_create_error s fs r name e Hl He).
Qed.

Lemma lock_path_is_directory_witness :
  isLocked store fs_lock_dir "prod" = false
  ∧ StatusCode (handleUnlock store fs_lock_dir NewRecorder
                  (bare_req "UNLOCK") "prod").1 = 409
  ∧ (handleUnlock store fs_lock_dir NewRecorder (bare_req "UNLOCK")
       "prod").2 = fs_lock_dir
  ∧ StatusCode (handleLock store fs_lock_dir NewRecorder (bare_req "LOCK")
                  "prod").1 = 500
  ∧ (handleLock store fs_lock_dir NewRecorder (bare_req "LOCK") "prod").2
    = fs_lock_dir.
Proof.
  destruct (lock_path_is_directory store fs_lock_dir (bare_req "UNLOCK")
              "prod" true eq_refl) as (H1 & H2 & H3 & _).
  destruct (lock_path_is_directory store fs_lock_dir (bare_req "LOCK")
              "prod" true eq_refl) as (_ & _ & _ & H4 & H5).
  by repeat split.
Defined.

(** ** Sequences of requests *)

(** X7: for a name that is not locked and has content, a DELETE whose remove
    call does not fail answers 200 and removes the content; a GET that
    follows answers 404 and a second DELETE answers 500. *)
Theorem delete_then_get_and_delete s fs r name old :
  isLocked s fs name = false →
  nodes fs !! statePath s name = Some (File old) →
  fault fs SysRemove (statePath s name) = None →
  fault fs SysRead (statePath s name) = None →
  let fs' := (handleDelete s fs NewRecorder r name).2 in
  StatusCode (handleDelete s fs NewRecorder r name).1 = 200
  ∧ nodes fs' !! statePath s name = None
  ∧ StatusCode (handleGet s fs' NewRecorder r name).1 = 404
  ∧ StatusCode (handleDelete s fs' NewRecorder r name).1 = 500.
Proof.
  intros Hl Hn Hf Hr.
  rewrite (handleDelete_removed s fs r name old Hl Hn Hf). simpl.
  set (fs' := with_nodes fs (delete (statePath s name) (nodes fs))).
  assert (nodes fs' !! statePath s name = None) as Hgone
    by apply lookup_delete_eq.
  assert (isLocked s fs' name = false) as Hl'.
  { destruct (isLocked s fs' name) eqn:E; [|done].
    apply isLocked_true_iff in E as [Hs [d Hd]]. simpl in Hs, Hd.
    rewrite lookup_delete_ne in Hd by apply statePath_ne_lockPath.
    by rewrite (isLocked_present s fs name d Hd Hs) in Hl. }
  split; [done|]. split; [done|]. split.
  - unfold handleGet, os_ReadFile. fold (statePath s name).
    change (fault fs' SysRead (statePath s name))
      with (fault fs SysRead (statePath s name)).
    by rewrite Hr, Hgone.
  - by rewrite (handleDelete_absent s fs' r name Hl' Hgone).
Qed.

Lemma delete_then_get_and_delete_witness :
  let fs' := (handleDelete store fs_present NewRecorder (bare_req "DELETE")
                "prod").2 in
  StatusCode (handleDelete store fs_present NewRecorder (bare_req "DELETE")
                "prod").1 = 200
  ∧ nodes fs' !! statePath store "prod" = None
  ∧ StatusCode (handleGet store fs' NewRecorder (bare_req "DELETE")
                  "prod").1 = 404
  ∧ StatusCode (handleDelete store fs' NewRecorder (bare_req "DELETE")
                  "prod").1 = 500.
Proof.
  apply (delete_then_get_and_delete store fs_present (bare_req "DELETE")
           "prod" [Byte.x31]); reflexivity.
Defined.

(** X8: for a name with no lock marker, LOCK followed by UNLOCK answers 200
    twice and leaves the file system exactly as it was, when the calls on
    the marker do not fail. *)
Theorem lock_then_unlock_restores s fs r r' name :
  nodes fs !! lockPath s name = None →
  fault fs SysStat (lockPath s name) = None →
  fault fs SysCreate (lockPath s name) = None →
  fault fs SysRemove (lockPath s name) = None →
  let fs' := (handleLock s fs NewRecorder r name).2 in
  StatusCode (handleLock s fs NewRecorder r name).1 = 200
  ∧ StatusCode (handleUnlock s fs' NewRecorder r' name).1 = 200
  ∧ (handleUnlock s fs' NewRecorder r' name).2 = fs.
Proof.
  intros Hn Hs Hc Hr.
  rewrite (handleLock_created s fs r name);
    [| by apply isLocked_absent | done | congruence].
  simpl.
  rewrite (handleUnlock_removed s _ r' name
             (isLocked_after_create s fs name Hs) Hr).
  simpl. split; [done|]. split; [done|].
  unfold with_nodes. simpl. rewrite delete_insert_eq, delete_id by done.
  by destruct fs.
Qed.

Lemma lock_then_unlock_restores_witness :
  let fs' := (handleLock store fs_present NewRecorder (bare_req "LOCK")
                "prod").2 in
  StatusCode (handleLock store fs_present NewRecorder (bare_req "LOCK")
                "prod").1 = 200
  ∧ StatusCode (handleUnlock store fs' NewRecorder (bare_req "UNLOCK")
                  "prod").1 = 200
  ∧ (handleUnlock store fs' NewRecorder (bare_req "UNLOCK") "prod").2
    = fs_present.
Proof.
  apply (lock_then_unlock_restores store fs_present (bare_req "LOCK")
           (bare_req "UNLOCK") "prod"); reflexivity.
Defined.

(** X9: once a LOCK has succeeded, POST, DELETE and a second LOCK for the
    same name are each answered 423 and leave the store as the LOCK left
    it, when the marker can be inspected. *)
Theorem lock_then_requests_rejected s fs r r' name :
  nodes fs !! lockPath s name = None →
  fault fs SysStat (lockPath s name) = None →
  fault fs SysCreate (lockPath s name) = None →
  let fs' := (handleLock s fs NewRecorder r name).2 in
  (StatusCode (handlePost s fs' NewRecorder r' name).1 = 423
   ∧ (handlePost s fs' NewRecorder r' name).2 = fs')
  ∧ (StatusCode (handleDelete s fs' NewRecorder r' name).1 = 423
     ∧ (handleDelete s fs' NewRecorder r' name).2 = fs')
  ∧ (StatusCode (handleLock s fs' NewRecorder r' name).1 = 423
     ∧ (handleLock s fs' NewRecorder r' name).2 = fs').
Proof.
  intros Hn Hs Hc.
  rewrite (handleLock_created s fs r name);
    [| by apply isLocked_absent | done | congruence].
  simpl. pose proof (isLocked_after_create s fs name Hs) as Hl.
  rewrite (handlePost_locked s _ r' name Hl).
  rewrite (handleDelete_locked s _ r' name Hl).
  by rewrite (handleLock_locked s _ r' name Hl).
Qed.

Lemma lock_then_requests_rejected_witness :
  let fs' := (handleLock store fs_present NewRecorder (bare_req "LOCK")
                "prod").2 in
  (StatusCode (handlePost store fs' NewRecorder (post_req sample) "prod").1
   = 423
   ∧ (handlePost store fs' NewRecorder (post_req sample) "prod").2 = fs')
  ∧ (StatusCode (handleDelete store fs' NewRecorder (post_req sample)
                   "prod").1 = 423
     ∧ (handleDelete store fs' NewRecorder (post_req sample) "prod").2 = fs')
  ∧ (StatusCode (handleLock store fs' NewRecorder (post_req sample)
                   "prod").1 = 423
     ∧ (handleLock store fs' NewRecorder (post_req sample) "prod").2 = fs').
Proof.
  apply (lock_then_requests_rejected store fs_present (bare_req "LOCK")
           (post_req sample) "prod"); reflexivity.
Defined.



(** X11: within one name the two artifacts are kept apart: POST and DELETE
    never touch the lock marker, LOCK and UNLOCK never touch the content,
    and GET changes nothing at all. *)
Theorem handlers_keep_to_their_artifact s fs r name :
  nodes (handlePost s fs NewRecorder r name).2 !! lockPath s name
  = nodes fs !! lockPath s name
  ∧ nodes (handleDelete s fs NewRecorder r name).2 !! lockPath s name
    = nodes fs !! lockPath s name
  ∧ nodes (handleLock s fs NewRecorder r name).2 !! statePath s name
    = nodes fs !! statePath s name
  ∧ nodes (handleUnlock s fs NewRecorder r name).2 !! statePath s name
    = nodes fs !! statePath s name
  ∧ (handleGet s fs NewRecorder r name).2 = fs.
Proof.
  split; [apply handlePost_other, lockPath_ne_statePath|].
  split; [apply handleDelete_other, lockPath_ne_statePath|].
  split; [apply handleLock_other, statePath_ne_lockPath|].
  split; [apply handleUnlock_other, statePath_ne_lockPath|].
  apply handleGet_unchanged.
Qed.

(** X12: posting the same body twice gives the same store as posting it
    once, and the second POST answers 200, when the name is not locked, the
    write does not fail and the content can be inspected. *)
Theorem post_twice s fs r name data :
  isLocked s fs name = false →
  RequestBody r = Ok data →
  fault fs SysWrite (statePath s name) = None →
  fault fs SysStat (statePath s name) = None →
  (∀ b, nodes fs !! statePath s name ≠ Some (Dir b)) →
  let fs' := (handlePost s fs NewRecorder r name).2 in
  StatusCode (handlePost s fs' NewRecorder r name).1 = 200
  ∧ (handlePost s fs' NewRecorder r name).2 = fs'.
Proof.
  intros Hl Hb Hw Hs Hd.
  rewrite (handlePost_written s fs r name data Hl Hb Hw Hd). simpl.
  set (fs' := with_nodes fs (<[statePath s name := File data]> (nodes fs))).
  assert (nodes fs' !! statePath s name = Some (File data)) as Hn
    by apply lookup_insert_eq.
  assert (isLocked s fs' name = false) as Hl'.
  { destruct (isLocked s fs' name) eqn:E; [|done].
    apply isLocked_true_iff in E as [Hs' [d Hd']]. simpl in Hs', Hd'.
    rewrite lookup_insert_ne in Hd' by apply statePath_ne_lockPath.
    by rewrite (isLocked_present s fs name d Hd' Hs') in Hl. }
  rewrite (handlePost_written s fs' r name data Hl' Hb Hw); [|congruence].
  rewrite (exists_present s fs' name data Hn Hs). simpl.
  split; [done|]. unfold fs', with_nodes. simpl.
  by rewrite insert_insert_eq.
Qed.

Lemma post_twice_witness :
  let fs' := (handlePost store fs_empty NewRecorder (post_req sample)
                "prod").2 in
  StatusCode (handlePost store fs' NewRecorder (post_req sample) "prod").1
  = 200
  ∧ (handlePost store fs' NewRecorder (post_req sample) "prod").2 = fs'.
Proof.
  apply (post_twice store fs_empty (post_req sample) "prod" sample);
    try reflexivity.
  intros b H. discriminate H.
Defined.

(** X13: when the lock marker of a name is present but cannot be inspected,
    UNLOCK answers 409 and leaves the marker in place, and a second LOCK
    answers 200 instead of 423 (it creates the marker again, empty). *)
Theorem stat_failure_unlock_and_second_lock s fs r name e marker :
  nodes fs !! lockPath s name = Some (File marker) →
  fault fs SysStat (lockPath s name) = Some e →
  (StatusCode (handleUnlock s fs NewRecorder r name).1 = 409
   ∧ (handleUnlock s fs NewRecorder r name).2 = fs)
  ∧ (fault fs SysCreate (lockPath s name) = None →
     StatusCode (handleLock s fs NewRecorder r name).1 = 200
     ∧ nodes (handleLock s fs NewRecorder r name).2 !! lockPath s name
       = Some (File [])).
Proof.
  intros Hn Hs.
  assert (isLocked s fs name = false) as Hl.
  { unfold isLocked, os_Stat. fold (lockPath s name). by rewrite Hs. }
  split.
  - by rewrite (handleUnlock_unlocked s fs r name Hl).
  - intros Hc.
    rewrite (handleLock_created s fs r name Hl Hc); [|congruence].
    simpl. split; [done | apply lookup_insert_eq].
Qed.

Lemma stat_failure_unlock_and_second_lock_witness :
  (StatusCode (handleUnlock store fs_stat_denied NewRecorder
                 (bare_req "UNLOCK") "prod").1 = 409
   ∧ (handleUnlock store fs_stat_denied NewRecorder (bare_req "UNLOCK")
        "prod").2 = fs_stat_denied)
  ∧ (StatusCode (handleLock store fs_stat_denied NewRecorder
                   (bare_req "LOCK") "prod").1 = 200
     ∧ nodes (handleLock store fs_stat_denied NewRecorder (bare_req "LOCK")
                "prod").2 !! lockPath store "prod" = Some (File [])).
Proof.
  destruct (stat_failure_unlock_and_second_lock store fs_stat_denied
              (bare_req "UNLOCK") "prod" EACCES [] eq_refl eq_refl)
    as [H1 _].
  destruct (stat_failure_unlock_and_second_lock store fs_stat_denied
              (bare_req "LOCK") "prod" EACCES [] eq_refl eq_refl)
    as [_ H2].
  split; [exact H1 | exact (H2 eq_refl)].
Defined.

(** ** Shared lemmas on the roster *)

Section MoreRoster.

Lemma States_State_from_elem i s name :
  name ∈ Name <$> s → is_Some (States_State_from i s name).
Proof.
  revert i. induction s as [|x s IH]; intros i Hin.
  { by apply elem_of_nil in Hin. }
  simpl. destruct (String.eqb_spec (Name x) name) as [|Hne]; [by eexists|].
  apply IH. apply elem_of_cons in Hin as [Hin|Hin]; [congruence | done].
Qed.

Lemma States_State_from_app i s x name :
  States_State_from i (s ++ [x]) name
  = match States_State_from i s name with
    | Some found => Some found
    | None =>
        if String.eqb (Name x) name then Some ((i + length s)%nat, x)
        else None
    end.
Proof.
  revert i. induction s as [|y s IH]; intros i; simpl.
  - by rewrite Nat.add_0_r.
  - destruct (String.eqb (Name y) name); [done|].
    rewrite IH. by rewrite Nat.add_succ_r.
Qed.

Lemma States_Add_taken name s :
  name ∈ Name <$> s → States_Add name s = (s, Some ErrAlreadyExists).
Proof.
  intros Hin. unfold States_Add, States_State.
  by destruct (States_State_from_elem 0 s name Hin) as [found ->].
Qed.

Lemma run_action_Add_None names s :
  (run_action States_Add names s).2 = None ↔
  NoDup names ∧ (∀ n, n ∈ names → n ∉ Name <$> s).
Proof.
  revert s. induction names as [|n rest IH]; intros s; simpl.
  - split; [|done]. intros _. split; [constructor|].
    intros n Hn. by apply elem_of_nil in Hn.
  - destruct (decide (n ∈ Name <$> s)) as [Hin|Hout].
    + rewrite States_Add_taken by done. simpl. split; [done|].
      intros [_ H]. destruct (H n); [left | done].
    + rewrite States_Add_fresh by done. rewrite IH.
      rewrite NoDup_cons, fmap_app. simpl. split.
      * intros [Hnd Hrest]. split; [split; [|done]|].
        -- intros Hn. apply (Hrest n Hn), elem_of_app. right. left.
        -- intros m [->|Hm]%elem_of_cons; [done|].
           intros Hms. apply (Hrest m Hm), elem_of_app. by left.
      * intros [[Hn Hnd] Hall]. split; [done|].
        intros m Hm [Hms|Hmn]%elem_of_app.
        -- apply (Hall m); [by right | done].
        -- apply list_elem_of_singleton in Hmn as ->. done.
Qed.

Lemma lock_first_error name s s' e :
  lock_first name s = (s', Some e) → s' = s.
Proof.
  revert s'. induction s as [|x s IH]; intros s'; simpl.
  { by intros [= <- _]. }
  destruct (String.eqb (Name x) name).
  - unfold State_Lock. destruct (Locked x); [|done]. by intros [= <- _].
  - destruct (lock_first name s) as [rest [e'|]]; [|done].
    intros [= <- <-]. by rewrite (IH rest eq_refl).
Qed.

Lemma lock_first_again name s s' :
  lock_first name s = (s', None) →
  lock_first name s' = (s', Some ErrAlreadyLocked).
Proof.
  revert s'. induction s as [|x s IH]; intros s'; simpl; [done|].
  destruct (String.eqb (Name x) name) eqn:E.
  - unfold State_Lock. destruct (Locked x); [done|].
    intros [= <-]. simpl. by rewrite E.
  - destruct (lock_first name s) as [rest [e'|]]; [done|].
    intros [= <-]. simpl. rewrite E. by rewrite (IH rest).
Qed.

Lemma lock_first_found name s s' :
  lock_first name s = (s', None) →
  ∃ i, States_State s' name = Some (i, {| Name := name; Locked := true |}).
Proof.
  unfold States_State. generalize 0%nat.
  revert s'. induction s as [|x s IH]; intros s' k; simpl; [done|].
  destruct (String.eqb_spec (Name x) name) as [Heq|Hne].
  - unfold State_Lock. destruct (Locked x); [done|].
    intros [= <-]. simpl. rewrite Heq, String.eqb_refl. by eexists.
  - destruct (lock_first name s) as [rest [e'|]]; [done|].
    intros [= <-]. simpl.
    destruct (String.eqb_spec (Name x) name); [done|]. by apply IH.
Qed.

Lemma lock_first_other name other s :
  other ≠ name →
  States_State (lock_first name s).1 other = States_State s other.
Proof.
  intros Hne. unfold States_State. generalize 0%nat.
  induction s as [|x s IH]; intros k; [done|]. simpl.
  destruct (String.eqb_spec (Name x) name) as [Heq|Hx].
  - unfold State_Lock. destruct (Locked x); [done|]. simpl.
    destruct (String.eqb_spec name other); [congruence|].
    by destruct (String.eqb_spec (Name x) other); [congruence|].
  - destruct (lock_first name s) as [rest e] eqn:E. simpl in *.
    destruct (String.eqb (Name x) other); [done | apply IH].
Qed.

Lemma artifacts_filter ext entries :
  (λ n, n +:+ ext) <$> artifacts ext entries
  = filter (λ e, filepath_Ext e = ext) entries.
Proof.
  induction entries as [|e rest IH]; [done|].
  unfold artifacts in *. simpl. unfold artifact_name at 1.
  rewrite filter_cons.
  destruct (String.eqb_spec (filepath_Ext e) ext) as [Hx|Hx];
    destruct (decide (filepath_Ext e = ext)); try done.
  csimpl. rewrite IH. f_equal.
  destruct (filepath_Ext_suffix e) as [pre Hpre]. rewrite Hx in *.
  rewrite Hpre at 1. by rewrite strings_TrimSuffix_app.
Qed.

End MoreRoster.

(** ** States *)

(** X14: locking an unlocked state succeeds and makes [IsLocked] true, and
    unlocking it again gives back the state; locking a locked state and
    unlocking an unlocked one return [ErrAlreadyLocked] and
    [ErrAlreadyUnlocked] and leave the state as it is. *)
Theorem State_Lock_Unlock st :
  (Locked st = false →
   (State_Lock st).2 = None
   ∧ State_IsLocked (State_Lock st).1 = true
   ∧ State_Unlock (State_Lock st).1 = (st, None)
   ∧ State_Unlock st = (st, Some ErrAlreadyUnlocked))
  ∧ (Locked st = true →
     State_Lock st = (st, Some ErrAlreadyLocked)
     ∧ (State_Unlock st).2 = None
     ∧ State_Lock (State_Unlock st).1 = (st, None)).
Proof.
  destruct st as [n [|]]; split; intros H; try discriminate H; done.
Qed.

Lemma State_Lock_Unlock_witness :
  State_Unlock (State_Lock (unlocked "prod")).1 = (unlocked "prod", None)
  ∧ State_Lock {| Name := "prod"; Locked := true |}
    = ({| Name := "prod"; Locked := true |}, Some ErrAlreadyLocked).
Proof.
  split.
  - destruct (State_Lock_Unlock (unlocked "prod")) as [H _].
    exact (proj1 (proj2 (proj2 (H eq_refl)))).
  - destruct (State_Lock_Unlock {| Name := "prod"; Locked := true |})
      as [_ H].
    exact (proj1 (H eq_refl)).
Defined.

(** X15: adding a name the roster does not have succeeds, and the roster
    then finds it, unlocked, at the end; the lookup of every other name
    is as before. *)
Theorem States_Add_then_State name s :
  name ∉ Name <$> s →
  (States_Add name s).2 = None
  ∧ States_State (States_Add name s).1 name
    = Some (length s, {| Name := name; Locked := false |})
  ∧ (∀ other, other ≠ name →
       States_State (States_Add name s).1 other = States_State s other).
Proof.
  intros Hn. rewrite States_Add_fresh by done. simpl.
  split; [done|]. unfold States_State. split.
  - rewrite States_State_from_app, States_State_from_None by done.
    simpl. by rewrite String.eqb_refl.
  - intros other Hne. rewrite States_State_from_app. simpl.
    destruct (States_State_from 0 s other); [done|].
    by destruct (String.eqb_spec name other).
Qed.

Lemma States_Add_then_State_witness :
  States_State (States_Add "dev" [unlocked "prod"]).1 "dev"
  = Some (1%nat, unlocked "dev")
  ∧ States_State (States_Add "dev" [unlocked "prod"]).1 "prod"
    = Some (0%nat, unlocked "prod").
Proof.
  assert ("dev" ∉ Name <$> [unlocked "prod"]) as H by compute_done.
  destruct (States_Add_then_State "dev" [unlocked "prod"] H)
    as (_ & H1 & H2).
  split; [exact H1|]. apply H2. discriminate.
Defined.

(** X16: adding a name the roster already has returns [ErrAlreadyExists]
    and leaves the roster as it is; so a roster whose names are pairwise
    distinct stays so under [Add]. *)
Theorem States_Add_keeps_names_distinct name s :
  (name ∈ Name <$> s → States_Add name s = (s, Some ErrAlreadyExists))
  ∧ (NoDup (Name <$> s) → NoDup (Name <$> (States_Add name s).1)).
Proof.
  split; [apply States_Add_taken|].
  intros Hnd. destruct (decide (name ∈ Name <$> s)) as [Hin|Hout].
  - by rewrite States_Add_taken.
  - rewrite States_Add_fresh by done. simpl. rewrite fmap_app.
    apply NoDup_app. split; [done|]. split; [|apply NoDup_singleton].
    intros n Hn ->%list_elem_of_singleton. done.
Qed.

Lemma States_Add_keeps_names_distinct_witness :
  States_Add "prod" [unlocked "prod"]
  = ([unlocked "prod"], Some ErrAlreadyExists)
  ∧ NoDup (Name <$> (States_Add "dev" [unlocked "prod"]).1).
Proof.
  split.
  - apply (States_Add_keeps_names_distinct "prod" [unlocked "prod"]).
    compute_done.
  - apply (States_Add_keeps_names_distinct "dev" [unlocked "prod"]).
    compute_done.
Defined.

(** X17: [States.Lock] never adds, removes or renames a state and never
    changes what the roster finds under another name; when it returns an
    error the roster is as it was, and a name the roster does not have gives
    [ErrNotExists]. *)
Theorem States_Lock_keeps_roster name s :
  Name <$> (States_Lock name s).1 = Name <$> s
  ∧ (∀ other, other ≠ name →
       States_State (States_Lock name s).1 other = States_State s other)
  ∧ ((States_Lock name s).2 ≠ None → (States_Lock name s).1 = s)
  ∧ (name ∉ Name <$> s → (States_Lock name s).2 = Some ErrNotExists).
Proof.
  rewrite States_Lock_lock_first.
  split; [apply lock_first_names|].
  split; [intros other; apply lock_first_other|].
  split; [|apply lock_first_missing].
  destruct (lock_first name s) as [s' [e|]] eqn:E; [|done].
  intros _. simpl. by apply lock_first_error in E.
Qed.

Lemma States_Lock_keeps_roster_witness :
  States_State (States_Lock "prod" [unlocked "dev"; unlocked "prod"]).1 "dev"
  = Some (0%nat, unlocked "dev")
  ∧ (States_Lock "qa" [unlocked "dev"; unlocked "prod"]).1
    = [unlocked "dev"; unlocked "prod"]
  ∧ (States_Lock "qa" [unlocked "dev"; unlocked "prod"]).2
    = Some ErrNotExists.
Proof.
  split; [|split].
  - destruct (States_Lock_keeps_roster "prod"
                [unlocked "dev"; unlocked "prod"]) as (_ & H & _).
    apply H. discriminate.
  - destruct (States_Lock_keeps_roster "qa"
                [unlocked "dev"; unlocked "prod"]) as (_ & _ & H & _).
    apply H. discriminate.
  - destruct (States_Lock_keeps_roster "qa"
                [unlocked "dev"; unlocked "prod"]) as (_ & _ & _ & H).
    apply H. compute_done.
Defined.

(** X18: after a [States.Lock] that succeeded the roster finds the name
    locked, and locking the same name again returns [ErrAlreadyLocked] and
    changes nothing. *)
Theorem States_Lock_twice name s :
  (States_Lock name s).2 = None →
  (∃ i, States_State (States_Lock name s).1 name
        = Some (i, {| Name := name; Locked := true |}))
  ∧ States_Lock name (States_Lock name s).1
    = ((States_Lock name s).1, Some ErrAlreadyLocked).
Proof.
  rewrite !States_Lock_lock_first.
  destruct (lock_first name s) as [s' [e|]] eqn:E; [done|]. intros _. simpl.
  split; [by eapply lock_first_found|].
  by apply (lock_first_again name s).
Qed.

Lemma States_Lock_twice_witness :
  States_Lock "prod" (States_Lock "prod" [unlocked "prod"]).1
  = ([{| Name := "prod"; Locked := true |}], Some ErrAlreadyLocked).
Proof.
  apply (States_Lock_twice "prod" [unlocked "prod"]). reflexivity.
Defined.

(** ** processEntries *)

(** X19: [processEntries] stops at the first entry whose action fails:
    scanning two lists one after the other is scanning the first and, only
    when that returned no error, scanning the second from the roster the
    first left. *)
Theorem processEntries_app l1 l2 ext action states :
  processEntries (l1 ++ l2) ext action states
  = match processEntries l1 ext action states with
    | (states', Some err) => (states', Some err)
    | (states', None) => processEntries l2 ext action states'
    end.
Proof.
  revert states. induction l1 as [|e l1 IH]; intros states; [done|].
  simpl. destruct (String.eqb (filepath_Ext e) ext); [|apply IH].
  destruct (action _ states) as [states' [err|]]; [done | apply IH].
Qed.

(** X20: entries with another extension never reach the action: the scan
    of a list is the scan of its entries that have the extension, and a
    list without any returns the roster unchanged and no error. *)
Theorem processEntries_other_extensions entries ext action states :
  processEntries entries ext action states
  = processEntries (filter (λ e, filepath_Ext e = ext) entries) ext action
      states
  ∧ ((∀ e, e ∈ entries → filepath_Ext e ≠ ext) →
     processEntries entries ext action states = (states, None)).
Proof.
  split.
  - revert states. induction entries as [|e rest IH]; intros states; [done|].
    rewrite filter_cons. simpl.
    destruct (String.eqb_spec (filepath_Ext e) ext) as [Hx|Hx];
      destruct (decide (filepath_Ext e = ext)); try done.
    simpl. destruct (String.eqb_spec (filepath_Ext e) ext); [|done].
    destruct (action _ states) as [states' [err|]]; [done | apply IH].
  - revert states. induction entries as [|e rest IH]; intros states Hall;
      [done|].
    simpl. destruct (String.eqb_spec (filepath_Ext e) ext) as [Hx|Hx].
    + destruct (Hall e); [left | done].
    + apply IH. intros e' He'. apply Hall. by right.
Qed.

Lemma processEntries_other_extensions_witness :
  processEntries ["test_rw"; "prod.lock"; "notes.txt"] stateFileExt
    States_Add [unlocked "dev"]
  = ([unlocked "dev"], None).
Proof.
  apply (processEntries_other_extensions
           ["test_rw"; "prod.lock"; "notes.txt"] stateFileExt States_Add
           [unlocked "dev"]).
  intros e He.
  repeat (apply elem_of_cons in He as [->|He]; [discriminate|]).
  by apply elem_of_nil in He.
Defined.

(** X21: building the roster from a list of entries succeeds exactly when
    the names of its content artifacts are pairwise distinct and none of
    them is in the roster already. *)
Theorem processEntries_Add_succeeds_iff entries states :
  (processEntries entries stateFileExt States_Add states).2 = None ↔
  NoDup (artifacts stateFileExt entries)
  ∧ (∀ n, n +:+ stateFileExt ∈ entries → n ∉ Name <$> states).
Proof.
  rewrite processEntries_run_action, run_action_Add_None.
  split; intros [Hnd Hall]; (split; [done|]); intros n Hn; apply Hall;
    by apply elem_of_artifacts_state.
Qed.

(** ** Shared lemmas on the listing *)

Section Listing.

Lemma allStates_ok s fs entries :
  fault fs SysOpen (path s) = None →
  File_ReadDir fs (path s) = Ok entries →
  (∀ n, n +:+ lockFileExt ∈ entries → n +:+ stateFileExt ∈ entries) →
  allStates s fs NewRecorder = roster_response (roster_of entries).
Proof.
  intros Hopen Hread Hsub.
  pose proof (File_ReadDir_NoDup fs (path s) entries Hread) as Hnd.
  assert (Name <$> (unlocked <$> artifacts stateFileExt entries)
          = artifacts stateFileExt entries) as Hfresh.
  { rewrite <- list_fmap_compose. apply list_fmap_id. }
  unfold allStates, os_Open. rewrite Hopen, Hread.
  rewrite processEntries_run_action, run_action_Add
    by by apply NoDup_artifacts_state.
  rewrite app_nil_l, processEntries_run_action.
  rewrite run_action_Lock; [done | by apply NoDup_artifacts_lock | | |].
  - rewrite Hfresh. by apply NoDup_artifacts_state.
  - intros n Hn. rewrite Hfresh. apply elem_of_artifacts_state, Hsub.
    by apply elem_of_artifacts_lock.
  - by intros st (n & -> & Hn)%list_elem_of_fmap.
Qed.

Lemma allStates_orphan s fs entries n :
  fault fs SysOpen (path s) = None →
  File_ReadDir fs (path s) = Ok entries →
  n +:+ lockFileExt ∈ entries →
  n +:+ stateFileExt ∉ entries →
  allStates s fs NewRecorder
  = http_Error NewRecorder "Internal Server Error" StatusInternalServerError.
Proof.
  intros Hopen Hread Hin Hout.
  pose proof (File_ReadDir_NoDup fs (path s) entries Hread) as Hnd.
  unfold allStates, os_Open. rewrite Hopen, Hread.
  rewrite processEntries_run_action, run_action_Add
    by by apply NoDup_artifacts_state.
  rewrite app_nil_l, processEntries_run_action.
  destruct (run_action_Lock_orphan (artifacts lockFileExt entries)
              (unlocked <$> artifacts stateFileExt entries))
    as (s' & err & ->); [|done].
  exists n. split; [by apply elem_of_artifacts_lock|].
  rewrite <- list_fmap_compose, list_fmap_id.
  by rewrite elem_of_artifacts_state.
Qed.

Lemma roster_of_names entries :
  Name <$> roster_of entries = artifacts stateFileExt entries.
Proof.
  unfold roster_of. rewrite <- !list_fmap_compose. apply list_fmap_id.
Qed.

Lemma elem_of_roster_of entries st :
  st ∈ roster_of entries ↔
  Name st +:+ stateFileExt ∈ entries
  ∧ Locked st = bool_decide (Name st +:+ lockFileExt ∈ entries).
Proof.
  unfold roster_of. rewrite <- list_fmap_compose, list_elem_of_fmap.
  split.
  - intros (n & -> & Hn). simpl. split; [by apply elem_of_artifacts_state|].
    apply bool_decide_ext, elem_of_artifacts_lock.
  - intros [Hin Hl]. exists (Name st). split.
    + destruct st as [n l]. simpl in *. unfold mark. simpl. f_equal.
      rewrite Hl. apply bool_decide_ext. symmetry.
      apply elem_of_artifacts_lock.
    + by apply elem_of_artifacts_state.
Qed.

Lemma strip_prefix_app pre rest : strip_prefix pre (pre +:+ rest) = Some rest.
Proof.
  induction pre as [|a pre IH]; [done|].
  change (strip_prefix (String a pre) (String a (pre +:+ rest)) = Some rest).
  simpl. by rewrite Ascii.eqb_refl.
Qed.

Lemma child_name_Join dir e :
  has_separator e = false → e ≠ "" →
  child_name dir (filepath_Join dir e) = Some e.
Proof.
  intros Hsep Hne. unfold child_name, filepath_Join.
  rewrite <- string_app_assoc, strip_prefix_app, Hsep.
  by destruct (String.eqb_spec e "").
Qed.

Lemma child_name_inv dir p e :
  child_name dir p = Some e →
  p = filepath_Join dir e ∧ has_separator e = false ∧ e ≠ "".
Proof.
  intros H. split; [by apply child_name_Some|].
  unfold child_name in H.
  destruct (strip_prefix (dir +:+ "/") p) as [b|]; [|done].
  destruct (has_separator b) eqn:Hs; [done|].
  destruct (String.eqb_spec b ""); [done|]. simpl in H.
  by injection H as <-.
Qed.

Lemma elem_of_ReadDir fs dir entries e :
  File_ReadDir fs dir = Ok entries →
  e ∈ entries ↔
  is_Some (nodes fs !! filepath_Join dir e)
  ∧ has_separator e = false ∧ e ≠ "".
Proof.
  unfold File_ReadDir. destruct (fault fs SysReadDir dir); [done|].
  intros [= <-]. rewrite list_elem_of_omap. split.
  - intros (p & Hp & (-> & Hs & Hne)%child_name_inv).
    split; [|done].
    apply list_elem_of_fmap in Hp as ([p' n] & Hpp & Hin). simpl in Hpp.
    subst p'. apply elem_of_map_to_list in Hin. by eexists.
  - intros ([n Hn] & Hs & Hne). exists (filepath_Join dir e).
    split; [|by apply child_name_Join].
    apply list_elem_of_fmap. exists (filepath_Join dir e, n).
    split; [done|]. by apply elem_of_map_to_list.
Qed.

Lemma has_separator_app a b :
  has_separator (a +:+ b) = has_separator a || has_separator b.
Proof.
  induction a as [|c a IH]; [done|].
  change (has_separator (String c (a +:+ b))
          = has_separator (String c a) || has_separator b).
  simpl. by rewrite IH, orb_assoc.
Qed.

Lemma string_app_nonempty a b : b ≠ "" → a +:+ b ≠ "".
Proof.
  intros Hb H. apply (f_equal String.length) in H.
  rewrite string_length_app in H. destruct b; [done|]. simpl in H. lia.
Qed.

Lemma listed_state s fs entries n :
  File_ReadDir fs (path s) = Ok entries →
  n +:+ stateFileExt ∈ entries ↔
  is_Some (nodes fs !! statePath s n) ∧ has_separator n = false.
Proof.
  intros H. rewrite (elem_of_ReadDir fs (path s) entries _ H).
  fold (statePath s n). rewrite has_separator_app, orb_false_r.
  split; [by intros (? & ? & _) | intros [? ?]].
  split; [done|]. split; [done|]. by apply string_app_nonempty.
Qed.

Lemma listed_lock s fs entries n :
  File_ReadDir fs (path s) = Ok entries →
  n +:+ lockFileExt ∈ entries ↔
  is_Some (nodes fs !! lockPath s n) ∧ has_separator n = false.
Proof.
  intros H. rewrite (elem_of_ReadDir fs (path s) entries _ H).
  fold (lockPath s n). rewrite has_separator_app, orb_false_r.
  split; [by intros (? & ? & _) | intros [? ?]].
  split; [done|]. split; [done|]. by apply string_app_nonempty.
Qed.

Lemma File_ReadDir_total fs dir :
  fault fs SysReadDir dir = None → ∃ entries, File_ReadDir fs dir = Ok entries.
Proof. intros H. unfold File_ReadDir. rewrite H. by eexists. Qed.

End Listing.

(** ** More on the list of all states *)

(** X22: when the list operation fails.  It answers 200 or 500, and 500
    exactly when the storage directory cannot be opened, or cannot be listed,
    or holds the lock marker of a name (without separator) that has no
    content artifact. *)
Theorem allStates_fails_iff s fs :
  StatusCode (allStates s fs NewRecorder) ∈ [200; 500]
  ∧ (StatusCode (allStates s fs NewRecorder) = 500
     ↔ is_Some (fault fs SysOpen (path s))
       ∨ is_Some (fault fs SysReadDir (path s))
       ∨ ∃ n, has_separator n = false
              ∧ is_Some (nodes fs !! lockPath s n)
              ∧ nodes fs !! statePath s n = None).
Proof.
  destruct (fault fs SysOpen (path s)) as [e|] eqn:Hopen.
  { unfold allStates, os_Open. rewrite Hopen. split; [compute_done|].
    split; [|done]. intros _. left. by eexists. }
  destruct (fault fs SysReadDir (path s)) as [e|] eqn:Hlist.
  { unfold allStates, os_Open, File_ReadDir. rewrite Hopen, Hlist.
    split; [compute_done|]. split; [|done]. intros _. right. left.
    by eexists. }
  destruct (File_ReadDir_total fs (path s) Hlist) as [entries Hread].
  destruct (decide (Forall (λ n, n ∈ artifacts stateFileExt entries)
                      (artifacts lockFileExt entries))) as [Hall|Hex].
  - rewrite Forall_forall in Hall.
    rewrite (allStates_ok s fs entries Hopen Hread).
    + split; [compute_done|]. split; [done|].
      intros [[? [=]]|[[? [=]]|(n & Hs & Hl & Hn)]].
      assert (n ∈ artifacts stateFileExt entries) as Hin.
      { apply Hall, elem_of_artifacts_lock.
        by apply (listed_lock s fs entries n Hread). }
      apply elem_of_artifacts_state in Hin.
      apply (listed_state s fs entries n Hread) in Hin as [[x Hx] _].
      congruence.
    + intros n Hn%elem_of_artifacts_lock.
      by apply elem_of_artifacts_state, Hall.
  - apply not_Forall_Exists in Hex; [|by intros; apply _].
    apply Exists_exists in Hex as (n & Hin & Hout).
    apply elem_of_artifacts_lock in Hin.
    assert (n +:+ stateFileExt ∉ entries) as Hout'
      by by rewrite <- elem_of_artifacts_state.
    rewrite (allStates_orphan s fs entries n Hopen Hread Hin Hout').
    split; [compute_done|]. split; [|done]. intros _. right. right.
    apply (listed_lock s fs entries n Hread) in Hin as [Hl Hs].
    exists n. split; [done|]. split; [done|].
    apply eq_None_not_Some. intros Hsome. apply Hout'.
    by apply (listed_state s fs entries n Hread).
Qed.

(** X23: the roster follows the directory order: its names, each with the
    state extension put back, are the entries of the listing that have that
    extension, in the order of the listing. *)
Theorem roster_follows_directory_order s fs entries :
  fault fs SysOpen (path s) = None →
  File_ReadDir fs (path s) = Ok entries →
  (∀ n, n +:+ lockFileExt ∈ entries → n +:+ stateFileExt ∈ entries) →
  ∃ roster,
    Body (allStates s fs NewRecorder)
    = [Json {| Status := "ok"; ResultStates := roster |}]
    ∧ (λ st, Name st +:+ stateFileExt) <$> roster
      = filter (λ e, filepath_Ext e = stateFileExt) entries.
Proof.
  intros Hopen Hread Hsub.
  rewrite (allStates_ok s fs entries Hopen Hread Hsub).
  exists (roster_of entries). split; [done|].
  rewrite <- artifacts_filter, <- roster_of_names.
  by rewrite <- list_fmap_compose.
Qed.

Lemma roster_follows_directory_order_witness :
  ∃ roster,
    Body (allStates store fs_listing NewRecorder)
    = [Json {| Status := "ok"; ResultStates := roster |}]
    ∧ (λ st, Name st +:+ stateFileExt) <$> roster
      = filter (λ e, filepath_Ext e = stateFileExt)
          ["dev.tfstate"; "prod.lock"; "prod.tfstate"].
Proof.
  apply (roster_follows_directory_order store fs_listing
           ["dev.tfstate"; "prod.lock"; "prod.tfstate"] eq_refl eq_refl).
  intros n Hn%elem_of_artifacts_lock.
  change (n ∈ ["prod"]) in Hn. apply list_elem_of_singleton in Hn as ->.
  compute_done.
Defined.

(** X24: the roster mirrors the storage directory.  When the directory can
    be opened and listed and every name with a lock marker has a content
    artifact, the answer is 200 and, for names without a separator, the
    roster has a state for the name exactly when its content artifact
    exists, locked exactly when its lock marker exists (whether or not the
    marker can be inspected or is a regular file). *)
Theorem allStates_mirrors_store s fs :
  fault fs SysOpen (path s) = None →
  fault fs SysReadDir (path s) = None →
  (∀ n, has_separator n = false →
        is_Some (nodes fs !! lockPath s n) →
        is_Some (nodes fs !! statePath s n)) →
  ∃ roster,
    StatusCode (allStates s fs NewRecorder) = 200
    ∧ Body (allStates s fs NewRecorder)
      = [Json {| Status := "ok"; ResultStates := roster |}]
    ∧ (∀ n, has_separator n = false →
            (n ∈ Name <$> roster ↔ is_Some (nodes fs !! statePath s n)))
    ∧ (∀ st, st ∈ roster →
             (Locked st = true
              ↔ is_Some (nodes fs !! lockPath s (Name st)))).
Proof.
  intros Hopen Hlist Hcons.
  destruct (File_ReadDir_total fs (path s) Hlist) as [entries Hread].
  rewrite (allStates_ok s fs entries Hopen Hread).
  - exists (roster_of entries). split; [done|]. split; [done|]. split.
    + intros n Hn.
      rewrite roster_of_names, elem_of_artifacts_state,
        (listed_state s fs entries n Hread). tauto.
    + intros st [Hin ->]%elem_of_roster_of.
      rewrite bool_decide_eq_true, (listed_lock s fs entries _ Hread).
      apply (listed_state s fs entries _ Hread) in Hin. tauto.
  - intros n [Hn Hs]%(listed_lock s fs entries n Hread).
    apply (listed_state s fs entries n Hread). auto.
Qed.

Lemma allStates_mirrors_store_witness :
  ∃ roster,
    StatusCode (allStates store fs_present NewRecorder) = 200
    ∧ Body (allStates store fs_present NewRecorder)
      = [Json {| Status := "ok"; ResultStates := roster |}]
    ∧ (∀ n, has_separator n = false →
            (n ∈ Name <$> roster
             ↔ is_Some (nodes fs_present !! statePath store n)))
    ∧ (∀ st, st ∈ roster →
             (Locked st = true
              ↔ is_Some (nodes fs_present !! lockPath store (Name st)))).
Proof.
  apply (allStates_mirrors_store store fs_present eq_refl eq_refl).
  intros n _ [x Hx]. simpl in Hx.
  apply lookup_singleton_Some in Hx as [Hx _].
  by apply statePath_ne_lockPath_any in Hx.
Defined.

(** X25: locking a name that has no content breaks the list operation:
    LOCK answers 200 and creates the marker, and from then on the list of
    all states answers 500, for the marker has no content artifact. *)
Theorem lock_without_content_breaks_listing s fs r name :
  has_separator name = false →
  nodes fs !! statePath s name = None →
  nodes fs !! lockPath s name = None →
  fault fs SysCreate (lockPath s name) = None →
  fault fs SysOpen (path s) = None →
  fault fs SysReadDir (path s) = None →
  StatusCode (handleLock s fs NewRecorder r name).1 = 200
  ∧ StatusCode (allStates s (handleLock s fs NewRecorder r name).2
                  NewRecorder) = 500
  ∧ Body (allStates s (handleLock s fs NewRecorder r name).2 NewRecorder)
    = error_body "Internal Server Error".
Proof.
  intros Hsep Hstate Hlock Hc Hopen Hlist.
  rewrite (handleLock_created s fs r name);
    [| by apply isLocked_absent | done | congruence].
  simpl. split; [done|].
  set (fs' := with_nodes fs (<[lockPath s name := File []]> (nodes fs))).
  destruct (File_ReadDir_total fs' (path s) Hlist) as [entries Hread].
  rewrite (allStates_orphan s fs' entries name Hopen Hread); [done| |].
  - apply (listed_lock s fs' entries name Hread). split; [|done].
    simpl. rewrite lookup_insert_eq. by eexists.
  - intros [[x Hx] _]%(listed_state s fs' entries name Hread).
    simpl in Hx. rewrite lookup_insert_ne in Hx
      by apply lockPath_ne_statePath. congruence.
Qed.

Lemma lock_without_content_breaks_listing_witness :
  StatusCode (allStates store fs_empty NewRecorder) = 200
  ∧ StatusCode (handleLock store fs_empty NewRecorder (bare_req "LOCK")
                  "prod").1 = 200
  ∧ StatusCode (allStates store
                  (handleLock store fs_empty NewRecorder (bare_req "LOCK")
                     "prod").2 NewRecorder) = 500.
Proof.
  split; [reflexivity|].
  destruct (lock_without_content_breaks_listing store fs_empty
              (bare_req "LOCK") "prod" eq_refl eq_refl eq_refl eq_refl
              eq_refl eq_refl) as (H1 & H2 & _).
  by split.
Defined.

(** ** Settings from the environment *)

Section Env.
Variables (f g : string → string).

Lemma asciiSpace_not_RuneSelf c : asciiSpace c = true → is_RuneSelf c = false.
Proof.
  unfold asciiSpace. rewrite !orb_true_iff.
  intros [[[[[H|H]|H]|H]|H]|H]; apply Ascii.eqb_eq in H; by subst c.
Qed.

Lemma TrimSpace_start_blank s : blank s → TrimSpace_start f s = inr "".
Proof.
  unfold blank. induction s as [|c s IH]; [done|]. simpl.
  intros [Hc Hs]%Forall_cons. by rewrite asciiSpace_not_RuneSelf, Hc, IH.
Qed.

Lemma strings_TrimSpace_blank s : blank s → strings_TrimSpace f g s = "".
Proof. intros H. unfold strings_TrimSpace. by rewrite TrimSpace_start_blank. Qed.

Lemma strconv_ParseBool_true str :
  strconv_ParseBool str = Some true
  ↔ str ∈ ["1"; "t"; "T"; "TRUE"; "true"; "True"].
Proof.
  unfold strconv_ParseBool.
  destruct (bool_decide_reflect
              (str ∈ ["1"; "t"; "T"; "TRUE"; "true"; "True"])); [done|].
  split; [|done].
  by destruct (bool_decide
                 (str ∈ ["0"; "f"; "F"; "FALSE"; "false"; "False"])).
Qed.

Lemma strconv_ParseBool_false str :
  strconv_ParseBool str = Some false
  ↔ str ∈ ["0"; "f"; "F"; "FALSE"; "false"; "False"].
Proof.
  unfold strconv_ParseBool.
  destruct (bool_decide_reflect
              (str ∈ ["1"; "t"; "T"; "TRUE"; "true"; "True"])) as [Hin|_].
  - split; [done|]. intros Hf. exfalso. revert Hin Hf.
    rewrite !elem_of_cons, !elem_of_nil.
    intros [->|[->|[->|[->|[->|[->|[]]]]]]]; intros H;
      repeat (destruct H as [H|H]; [discriminate H|]); done.
  - destruct (bool_decide_reflect
                (str ∈ ["0"; "f"; "F"; "FALSE"; "false"; "False"])); done.
Qed.

End Env.

(** X26: [stringFromEnv] gives the default for a variable that is unset or
    empty; a variable that holds only ASCII white space gives the empty
    string, not the default, because the value is compared with the empty
    string before it is trimmed. *)
Theorem stringFromEnv_default_and_blank f g env key def :
  (env !! key = None ∨ env !! key = Some "" →
   stringFromEnv f g env key def = def)
  ∧ (∀ v, env !! key = Some v → v ≠ "" → blank v →
          stringFromEnv f g env key def = "").
Proof.
  unfold stringFromEnv, os_Getenv. split.
  - by intros [-> | ->].
  - intros v -> Hne Hb. simpl.
    destruct (String.eqb_spec v ""); [done|]. simpl.
    by apply strings_TrimSpace_blank.
Qed.

Lemma stringFromEnv_default_and_blank_witness :
  stringFromEnv no_fallback no_fallback sample_env "TF_HTTP_ADDR" ":3001"
  = ":3001"
  ∧ stringFromEnv no_fallback no_fallback sample_env "TF_HTTP_PORT" ":3001"
    = ":3001"
  ∧ stringFromEnv no_fallback no_fallback sample_env "TF_HTTP_PATH"
      "/var/lib/terraform" = "".
Proof.
  split; [|split].
  - apply (stringFromEnv_default_and_blank no_fallback no_fallback
             sample_env "TF_HTTP_ADDR" ":3001"). by right.
  - apply (stringFromEnv_default_and_blank no_fallback no_fallback
             sample_env "TF_HTTP_PORT" ":3001"). by left.
  - destruct (stringFromEnv_default_and_blank no_fallback no_fallback
                sample_env "TF_HTTP_PATH" "/var/lib/terraform") as [_ H].
    apply (H "   "); [reflexivity | discriminate |].
    unfold blank. simpl. by repeat constructor.
Defined.

(** X27: [boolFromEnv] never fails.  With default [false] it gives [true]
    exactly when the trimmed value is one of 1, t, T, TRUE, true and True;
    with default [true] it gives [false] exactly when the trimmed value is
    one of 0, f, F, FALSE, false and False.  Every other value, and an unset
    or empty variable, gives the default. *)
Theorem boolFromEnv_literals f g env key :
  (boolFromEnv f g env key false = true
   ↔ strings_TrimSpace f g (os_Getenv env key)
     ∈ ["1"; "t"; "T"; "TRUE"; "true"; "True"])
  ∧ (boolFromEnv f g env key true = false
     ↔ strings_TrimSpace f g (os_Getenv env key)
       ∈ ["0"; "f"; "F"; "FALSE"; "false"; "False"]).
Proof.
  unfold boolFromEnv.
  destruct (String.eqb_spec (os_Getenv env key) "") as [->|Hne]; simpl.
  - split; (split; [done|]); intros H; exfalso; revert H;
      rewrite !elem_of_cons, !elem_of_nil; intros H;
      repeat (destruct H as [H|H]; [discriminate H|]); done.
  - rewrite <- strconv_ParseBool_true, <- strconv_ParseBool_false.
    destruct (strconv_ParseBool _) as [[|]|]; split; split; done.
Qed.

Section Trim.
Variables (f g : string → string).

Lemma TrimSpace_start_pad pad rest :
  blank pad →
  TrimSpace_start f (pad +:+ rest) = TrimSpace_start f rest.
Proof.
  unfold blank. induction pad as [|c pad IH]; [done|].
  intros [Hc Hs]%Forall_cons.
  change (TrimSpace_start f (String c (pad +:+ rest))
          = TrimSpace_start f rest).
  simpl. by rewrite asciiSpace_not_RuneSelf, Hc, IH.
Qed.

Lemma TrimSpace_stop_pad pad r :
  Forall (λ c, asciiSpace c = true) pad →
  TrimSpace_stop g (pad ++ r) = TrimSpace_stop g r.
Proof.
  induction 1 as [|c pad Hc Hs IH]; [done|]. simpl.
  by rewrite asciiSpace_not_RuneSelf, Hc, IH.
Qed.

Lemma solid_spec c :
  solid c = true → is_RuneSelf c = false ∧ asciiSpace c = false.
Proof.
  unfold solid. intros [H1 H2]%andb_true_iff.
  by apply negb_true_iff in H1, H2.
Qed.

Lemma strings_TrimSpace_padded pad1 core pad2 a b :
  blank pad1 → blank pad2 →
  head (String.list_ascii_of_string core) = Some a → solid a = true →
  last (String.list_ascii_of_string core) = Some b → solid b = true →
  strings_TrimSpace f g (pad1 +:+ core +:+ pad2) = core.
Proof.
  intros Hp1 Hp2 Ha Hsa Hb Hsb. unfold strings_TrimSpace.
  rewrite TrimSpace_start_pad by done.
  destruct core as [|a' core']; [done|]. simpl in Ha.
  injection Ha as ->.
  apply solid_spec in Hsa as [Ha1 Ha2], Hsb as [Hb1 Hb2].
  change (String a core' +:+ pad2) with (String a (core' +:+ pad2)).
  cbn [TrimSpace_start]. rewrite Ha1, Ha2.
  change (String a (core' +:+ pad2)) with (String a core' +:+ pad2).
  rewrite list_ascii_of_string_app, rev_app_distr.
  rewrite TrimSpace_stop_pad by (by apply Forall_rev; apply Hp2).
  apply last_Some in Hb as [front Hfront]. rewrite Hfront.
  rewrite rev_app_distr. simpl. rewrite Hb1, Hb2.
  rewrite rev_involutive, <- Hfront.
  apply String.string_of_list_ascii_of_string.
Qed.

End Trim.

(** X28: a value made of ASCII white space, then a text that starts and
    ends with an ASCII byte that is not white space, then ASCII white space
    again, is read by [stringFromEnv] as that text, whatever the default
    and whatever lies between the first and the last byte of the text. *)
Theorem stringFromEnv_trims f g env key def pad1 core pad2 a b :
  env !! key = Some (pad1 +:+ core +:+ pad2) →
  blank pad1 → blank pad2 →
  head (String.list_ascii_of_string core) = Some a → solid a = true →
  last (String.list_ascii_of_string core) = Some b → solid b = true →
  stringFromEnv f g env key def = core.
Proof.
  intros Hv Hp1 Hp2 Ha Hsa Hb Hsb. unfold stringFromEnv, os_Getenv.
  rewrite Hv. simpl.
  destruct (String.eqb_spec (pad1 +:+ core +:+ pad2) "") as [He|_].
  - exfalso. apply (f_equal String.length) in He.
    rewrite !string_length_app in He.
    destruct core; [done|]. simpl in He. lia.
  - simpl. by eapply strings_TrimSpace_padded.
Qed.

Lemma stringFromEnv_trims_witness :
  stringFromEnv no_fallback no_fallback sample_env "TF_HTTP_DIR"
    "/var/lib/terraform" = "/srv/tf state".
Proof.
  apply (stringFromEnv_trims no_fallback no_fallback sample_env
           "TF_HTTP_DIR" "/var/lib/terraform" (String "009" " ")
           "/srv/tf state" " " "/" "e"); try reflexivity.
  - unfold blank. simpl. by repeat constructor.
  - unfold blank. simpl. by repeat constructor.
Defined.

(** ** Start-up *)

(** X29: [NewStorage] refuses, without changing anything and without
    creating the directory, a path that is a regular file (the error is
    [ErrNotDirectory]) and a path whose stat fails for a reason other than
    non-existence (the error is that of the stat call). *)
Theorem NewStorage_refuses mkdir close fs path :
  (∀ data, nodes fs !! path = Some (File data) →
           fault fs SysStat path = None →
           ∃ err, NewStorage mkdir close fs path = (fs, Err err)
                  ∧ root_cause err = ErrNotDirectory)
  ∧ (∀ e, fault fs SysStat path = Some e → e ≠ ENOENT →
          ∃ err, NewStorage mkdir close fs path = (fs, Err err)
                 ∧ root_cause err = PathError e).
Proof.
  split.
  - intros data Hn Hf. unfold NewStorage, ensureDirectoryExists, os_Stat.
    rewrite Hf, Hn. simpl. by eexists.
  - intros e Hf Hne. unfold NewStorage, ensureDirectoryExists, os_Stat.
    rewrite Hf. destruct e; try done; simpl; by eexists.
Qed.

Lemma NewStorage_refuses_witness :
  (∃ err, NewStorage mkdir_ok close_ok fs_file_root (path store)
          = (fs_file_root, Err err)
          ∧ root_cause err = ErrNotDirectory)
  ∧ (∃ err, NewStorage mkdir_ok close_ok fs_root_denied (path store)
            = (fs_root_denied, Err err)
            ∧ root_cause err = PathError EACCES).
Proof.
  split.
  - destruct (NewStorage_refuses mkdir_ok close_ok fs_file_root (path store))
      as [H _].
    exact (H [] eq_refl eq_refl).
  - destruct (NewStorage_refuses mkdir_ok close_ok fs_root_denied
                (path store)) as [_ H].
    apply (H EACCES); [reflexivity | discriminate].
Defined.

(** X30: on a storage directory that exists, [NewStorage] returns a storage
    for that path when the create, close and remove calls of its write test
    do not fail, and it leaves the directory as it was but for the file
    [test_rw]: a file of that name that was there before is gone. *)
Theorem NewStorage_existing_directory mkdir close fs p b :
  nodes fs !! p = Some (Dir b) →
  fault fs SysStat p = None →
  fault fs SysCreate (filepath_Join p testFileName) = None →
  (∀ b', nodes fs !! filepath_Join p testFileName ≠ Some (Dir b')) →
  (∀ fs', close fs' (filepath_Join p testFileName) = (fs', None)) →
  fault fs SysRemove (filepath_Join p testFileName) = None →
  NewStorage mkdir close fs p
  = (with_nodes fs (delete (filepath_Join p testFileName) (nodes fs)),
     Ok {| path := p |}).
Proof.
  intros Hn Hs Hc Hd Hclose Hr.
  unfold NewStorage, ensureDirectoryExists, os_Stat. rewrite Hs, Hn. simpl.
  unfold os_Create. rewrite Hc.
  set (file := filepath_Join p testFileName) in *.
  assert (∀ fs0, nodes fs0 = <[file := File []]> (nodes fs) →
                 fault fs0 = fault fs →
                 match close fs0 file with
                 | (fs1, Some err) =>
                     (fs1, Err (Wrapped ("failed close testfile " +:+ file)
                                  err))
                 | (fs1, None) =>
                     match os_Remove fs1 file with
                     | (fs2, Some err) =>
                         (fs2,
                          Err (Wrapped ("failed remove testfile " +:+ file)
                                 err))
                     | (fs2, None) => (fs2, Ok {| path := p |})
                     end
                 end
                 = (with_nodes fs (delete file (nodes fs)),
                    Ok {| path := p |})) as Hrest.
  { intros fs0 Hn0 Hf0. rewrite Hclose. unfold os_Remove.
    rewrite Hf0, Hr, Hn0, lookup_insert_eq. unfold with_nodes.
    by rewrite Hf0, delete_insert_eq. }
  destruct (nodes fs !! file) as [[d|b']|] eqn:E;
    [| by destruct (Hd b') |]; by apply Hrest.
Qed.

Lemma NewStorage_existing_directory_witness :
  nodes fs_rooted !! filepath_Join (path store) testFileName
  = Some (File [Byte.x32])
  ∧ ∃ fs', NewStorage mkdir_ok close_ok fs_rooted (path store)
           = (fs', Ok store)
           ∧ nodes fs' !! filepath_Join (path store) testFileName = None
           ∧ nodes fs' !! statePath store "prod" = Some (File [Byte.x31]).
Proof.
  split; [reflexivity|]. eexists. split.
  - apply (NewStorage_existing_directory mkdir_ok close_ok fs_rooted
             (path store) false); try reflexivity.
    intros b' H. discriminate H.
  - split; reflexivity.
Defined.
